(** * sto-core/Adapter.hh: column-access counters and the split advisor

    A shallow embedding of [sto::Adapter<T, IndexType>] and a verification
    of its documented behaviour.

    Modelling conventions.
    - [counter_type] is [size_t]; on the LP64 targets of the code base it
      is a 64-bit unsigned integer.  Counters are [Z] values and every
      addition is followed by an explicit reduction modulo [2 ^ 64].
    - [double] is IEEE-754 binary64 with round-to-nearest-even, represented
      by the primitive floats of the kernel.  A division by a zero total,
      which the language standard leaves open, is the division of the
      hardware: [0.0 / 0.0] is a NaN, [x / 0.0] an infinity for [x > 0],
      and every ordered comparison with a NaN is false.
    - [std::array] is a list; an access outside the array has no defined
      result in the source, and neither has a failed [assert]: both are the
      [None] of the option monad.
    - The static members of the class template (and the process-wide
      [AdapterConfig::Enabled]) are the fields of one record, threaded
      explicitly; [TThread::id()] is an explicit thread argument.
    - [Index] is an enumeration whose enumerators include [COLCOUNT];
      column indices and split values are natural numbers, and the casts
      between [size_t], [ssize_t] and [Index] are the identity on the
      values that occur ([0 .. COLCOUNT]).
    - [std::cout] output is not modelled. *)

From Stdlib Require Import ZArith Floats Lia.
From stdpp Require Import base tactics option list.

Set Warnings "-inexact-float".
Local Open Scope Z_scope.

(** ** Machine arithmetic *)

Definition counter_bits : Z := 64.

(** Reduction of an unbounded integer into [counter_type]. *)
Definition wrap (z : Z) : Z := z mod 2 ^ counter_bits.

(** A value that fits [counter_type]. *)
Definition is_counter (z : Z) : Prop := 0 ≤ z < 2 ^ counter_bits.

#[global] Instance is_counter_dec z : Decision (is_counter z).
Proof. unfold is_counter. apply _. Defined.

(** Conversion [size_t -> double] (the implicit conversion in
    [read_psum[i] * 1.0] and in [... / read_total]): the nearest binary64
    value, ties to even. *)
Definition of_size_t (z : Z) : float :=
  SF2Prim (binary_normalize prec emax z 0 false).

(** [for (i : idxs) body], stopping at the first undefined step. *)
Fixpoint for_loop {A : Type} (body : nat → A → option A)
    (idxs : list nat) (a : A) : option A :=
  match idxs with
  | [] => Some a
  | i :: rest => a' ← body i a; for_loop body rest a'
  end.

(** [for (size_t i = 0; i < n; i++)] *)
Definition ascending (n : nat) : list nat := seq 0 n.

(** [for (size_t s = n - 1; s; s--)], for [1 <= n]. *)
Definition descending (n : nat) : list nat := reverse (seq 1 (n - 1)).

(** ** State *)

(** [CounterSet<CounterType>]: both instantiations hold [counter_type]
    values; atomicity is a property of the operations below. *)
Record CounterSet : Type := mkCounterSet {
  read_counters : list Z;
  write_counters : list Z;
}.

(** [CounterSet::Reset]: both variants assign [0] to every slot. *)
Definition Reset (cs : CounterSet) : CounterSet :=
  {| read_counters := (λ _, 0) <$> read_counters cs;
     write_counters := (λ _, 0) <$> write_counters cs |}.

Record Adapter : Type := mkAdapter {
  Enabled : bool;                      (* AdapterConfig::Enabled *)
  current_split : nat;                 (* static Index current_split *)
  global_counters : CounterSet;
  thread_counters : list CounterSet;   (* indexed by thread id *)
}.

Definition set_current_split (s : nat) (st : Adapter) : Adapter :=
  {| Enabled := Enabled st; current_split := s;
     global_counters := global_counters st;
     thread_counters := thread_counters st |}.

Definition set_global_counters (g : CounterSet) (st : Adapter) : Adapter :=
  {| Enabled := Enabled st; current_split := current_split st;
     global_counters := g;
     thread_counters := thread_counters st |}.

Definition set_thread_counters (t : list CounterSet) (st : Adapter) : Adapter :=
  {| Enabled := Enabled st; current_split := current_split st;
     global_counters := global_counters st;
     thread_counters := t |}.

Definition set_read_counters (r : list Z) (cs : CounterSet) : CounterSet :=
  {| read_counters := r; write_counters := write_counters cs |}.

Definition set_write_counters (w : list Z) (cs : CounterSet) : CounterSet :=
  {| read_counters := read_counters cs; write_counters := w |}.

Definition zero_set (n : nat) : CounterSet :=
  {| read_counters := replicate n 0; write_counters := replicate n 0 |}.

(** [std::atomic::fetch_add] on slot [i] of an array: one indivisible
    read-modify-write with wrap-around. *)
Definition fetch_add (l : list Z) (i : nat) (v : Z) : option (list Z) :=
  x ← l !! i; Some (<[i := wrap (x + v)]> l).

Section Adapter.

(** [NCOUNTERS = IndexType::COLCOUNT]; [MAX_THREADS] comes from Sto.hh. *)
Variable NCOUNTERS : nat.
Variable MAX_THREADS : nat.

(** [INITIALIZE_ADAPTER]: every static member is value-initialised. *)
Definition INITIALIZE_ADAPTER (enabled : bool) : Adapter :=
  {| Enabled := enabled;
     current_split := 0%nat;
     global_counters := zero_set NCOUNTERS;
     thread_counters := replicate MAX_THREADS (zero_set NCOUNTERS) |}.

(** *** Queries *)

Definition GetRead (st : Adapter) (index : nat) : option Z :=
  if Enabled st then read_counters (global_counters st) !! index
  else Some 0.

Definition GetWrite (st : Adapter) (index : nat) : option Z :=
  if Enabled st then write_counters (global_counters st) !! index
  else Some 0.

Definition Get (st : Adapter) (index : nat) : option (Z * Z) :=
  r ← GetRead st index; w ← GetWrite st index; Some (r, w).

Definition TGetRead (st : Adapter) (threadid index : nat) : option Z :=
  if Enabled st then
    cs ← thread_counters st !! threadid; read_counters cs !! index
  else Some 0.

Definition TGetWrite (st : Adapter) (threadid index : nat) : option Z :=
  if Enabled st then
    cs ← thread_counters st !! threadid; write_counters cs !! index
  else Some 0.

Definition TGet (st : Adapter) (threadid index : nat) : option (Z * Z) :=
  r ← TGetRead st threadid index; w ← TGetWrite st threadid index;
  Some (r, w).

Definition CurrentSplit (st : Adapter) : nat :=
  if decide (current_split st = 0%nat) then NCOUNTERS else current_split st.

(** *** Counting *)

Definition CountRead (st : Adapter) (threadid index : nat) (count : Z)
    : option Adapter :=
  if decide (index < NCOUNTERS)%nat then
    if Enabled st then
      cs ← thread_counters st !! threadid;
      r ← read_counters cs !! index;
      Some (set_thread_counters
              (<[threadid :=
                   set_read_counters
                     (<[index := wrap (r + count)]> (read_counters cs)) cs]>
                 (thread_counters st)) st)
    else Some st
  else None.

Definition CountWrite (st : Adapter) (threadid index : nat) (count : Z)
    : option Adapter :=
  if decide (index < NCOUNTERS)%nat then
    if Enabled st then
      cs ← thread_counters st !! threadid;
      w ← write_counters cs !! index;
      Some (set_thread_counters
              (<[threadid :=
                   set_write_counters
                     (<[index := wrap (w + count)]> (write_counters cs)) cs]>
                 (thread_counters st)) st)
    else Some st
  else None.

Definition ResetGlobal (st : Adapter) : Adapter :=
  if Enabled st then set_global_counters (Reset (global_counters st)) st
  else st.

Definition ResetThread (st : Adapter) (threadid : nat) : option Adapter :=
  if Enabled st then
    cs ← thread_counters st !! threadid;
    Some (set_thread_counters (<[threadid := Reset cs]> (thread_counters st)) st)
  else Some st.

(** *** Commit *)

(** The atomic read-modify-write operations issued on the global bank. *)
Inductive rmw : Type :=
  | AddRead (i : nat) (v : Z)     (* read_counters[i].fetch_add(v) *)
  | AddWrite (i : nat) (v : Z).   (* write_counters[i].fetch_add(v) *)

Definition apply_rmw (g : CounterSet) (a : rmw) : option CounterSet :=
  match a with
  | AddRead i v =>
      r ← fetch_add (read_counters g) i v; Some (set_read_counters r g)
  | AddWrite i v =>
      w ← fetch_add (write_counters g) i v; Some (set_write_counters w g)
  end.

(** One iteration of the loop of [Commit(threadid)]. *)
Definition Commit_body (tcs : list CounterSet) (threadid : nat)
    (i : nat) (g : CounterSet) : option CounterSet :=
  tc ← tcs !! threadid;
  tr ← read_counters tc !! i;
  g1 ← apply_rmw g (AddRead i tr);
  tw ← write_counters tc !! i;
  apply_rmw g1 (AddWrite i tw).

Definition Commit (st : Adapter) (threadid : nat) : option Adapter :=
  if Enabled st then
    g ← for_loop (Commit_body (thread_counters st) threadid)
          (ascending NCOUNTERS) (global_counters st);
    Some (set_global_counters g st)
  else Some st.

(** *** ComputeSplitIndex *)

(** The local arrays and totals filled by the first loop. *)
Record Snapshot : Type := mkSnapshot {
  read_psum : list Z;
  write_psum : list Z;
  read_total : Z;
  write_total : Z;
}.

(** One iteration of the snapshot loop.  [read_freq[numindex]] and
    [write_freq[numindex]] are only used inside the iteration that writes
    them. *)
Definition snapshot_body (st : Adapter) (numindex : nat) (sn : Snapshot)
    : option Snapshot :=
  read_freq ← GetRead st numindex;
  write_freq ← GetWrite st numindex;
  '(rp, wp) ←
    match numindex with
    | O => Some (read_freq, write_freq)
    | S prev =>
        rprev ← read_psum sn !! prev;
        wprev ← write_psum sn !! prev;
        Some (wrap (rprev + read_freq), wrap (wprev + write_freq))
    end;
  Some {| read_psum := <[numindex := rp]> (read_psum sn);
          write_psum := <[numindex := wp]> (write_psum sn);
          read_total := wrap (read_total sn + read_freq);
          write_total := wrap (write_total sn + write_freq) |}.

(** The local arrays before the loop; their slots are written before they
    are read. *)
Definition snapshot_init : Snapshot :=
  {| read_psum := replicate NCOUNTERS 0;
     write_psum := replicate NCOUNTERS 0;
     read_total := 0; write_total := 0 |}.

Definition take_snapshot (st : Adapter) : option Snapshot :=
  for_loop (snapshot_body st) (ascending NCOUNTERS) snapshot_init.

(** [psum[split - 1] * 1.0 / total]; for [split = 0] the index is
    [SIZE_MAX], outside every array. *)
Definition fraction (psum : list Z) (total : Z) (split : nat) : option float :=
  match split with
  | O => None
  | S k => p ← psum !! k; Some (of_size_t p * 1.0 / of_size_t total)%float
  end.

(** [best_split] together with [best_data[0]] and [best_data[1]]. *)
Record Best : Type := mkBest {
  best_split : nat;
  best_read : float;
  best_write : float;
}.

(** Body of the "maximize write load vs read load difference" loop. *)
Definition skew_body (sn : Snapshot) (current_split : nat) (b : Best)
    : option Best :=
  current_read ← fraction (read_psum sn) (read_total sn) current_split;
  current_write ← fraction (write_psum sn) (write_total sn) current_split;
  let best_diff := abs (best_write b - best_read b)%float in
  let current_diff := abs (current_write - current_read)%float in
  if (best_diff * 1.05 <? current_diff)%float then
    Some {| best_split := current_split;
            best_read := current_read; best_write := current_write |}
  else Some b.

(** Body of the "try to balance writes" loop. *)
Definition balance_body (sn : Snapshot) (current_split best : nat)
    : option nat :=
  best_frac ← fraction (write_psum sn) (write_total sn) best;
  current_frac ← fraction (write_psum sn) (write_total sn) current_split;
  let best_diff := abs (best_frac - 0.5)%float in
  let current_diff := abs (current_frac - 0.5)%float in
  if (current_diff <? best_diff * 0.95)%float then Some current_split
  else Some best.

Definition skew_pass (sn : Snapshot) : option Best :=
  r ← fraction (read_psum sn) (read_total sn) NCOUNTERS;
  w ← fraction (write_psum sn) (write_total sn) NCOUNTERS;
  for_loop (skew_body sn) (descending NCOUNTERS)
    {| best_split := NCOUNTERS; best_read := r; best_write := w |}.

Definition balance_pass (sn : Snapshot) (best : nat) : option nat :=
  if decide (best = NCOUNTERS) then
    for_loop (balance_body sn) (descending NCOUNTERS) best
  else Some best.

Definition ComputeSplitIndex (st : Adapter) : option nat :=
  sn ← take_snapshot st;
  b ← skew_pass sn;
  balance_pass sn (best_split b).

(** *** RecomputeSplit *)

Definition RecomputeSplit (st : Adapter) : option (bool * Adapter) :=
  split ← ComputeSplitIndex st;
  let st1 := ResetGlobal st in
  let changed := bool_decide (split ≠ current_split st1) in
  Some (changed, set_current_split split st1).

End Adapter.

(** ** Sequences of calls *)

Inductive call : Type :=
  | CallCountRead (threadid index : nat) (count : Z)
  | CallCountWrite (threadid index : nat) (count : Z)
  | CallCommit (threadid : nat)
  | CallRecomputeSplit
  | CallResetGlobal
  | CallResetThread (threadid : nat).

Section Calls.

Variable NCOUNTERS : nat.

Definition exec (st : Adapter) (c : call) : option Adapter :=
  match c with
  | CallCountRead t i n => CountRead NCOUNTERS st t i n
  | CallCountWrite t i n => CountWrite NCOUNTERS st t i n
  | CallCommit t => Commit NCOUNTERS st t
  | CallRecomputeSplit => snd <$> RecomputeSplit NCOUNTERS st
  | CallResetGlobal => Some (ResetGlobal st)
  | CallResetThread t => ResetThread st t
  end.

Fixpoint run (st : Adapter) (cs : list call) : option Adapter :=
  match cs with
  | [] => Some st
  | c :: rest => st' ← exec st c; run st' rest
  end.

(** The arguments of a call respect the contract of the interface: a
    column below [COLCOUNT], a thread handle below [max_threads]. *)
Definition call_ok (max_threads : nat) (c : call) : Prop :=
  match c with
  | CallCountRead t i _ | CallCountWrite t i _ =>
      (t < max_threads)%nat ∧ (i < NCOUNTERS)%nat
  | CallCommit t | CallResetThread t => (t < max_threads)%nat
  | CallRecomputeSplit | CallResetGlobal => True
  end.

(** The only contract checked when the feature is disabled: the
    [assert] on the column index. *)
Definition index_ok (c : call) : Prop :=
  match c with
  | CallCountRead _ i _ | CallCountWrite _ i _ => (i < NCOUNTERS)%nat
  | _ => True
  end.

End Calls.

(** ** Concurrent commits *)



#[local] Instance CounterSet_inhabited : Inhabited CounterSet :=
  populate (zero_set 0).

(** ** Well-formed states *)

(** Every array has [COLCOUNT] slots and every slot holds a
    [counter_type] value. *)
Definition CounterSet_wf (n : nat) (cs : CounterSet) : Prop :=
  length (read_counters cs) = n ∧ length (write_counters cs) = n
  ∧ Forall is_counter (read_counters cs)
  ∧ Forall is_counter (write_counters cs).

Definition Adapter_wf (n max_threads : nat) (st : Adapter) : Prop :=
  CounterSet_wf n (global_counters st)
  ∧ length (thread_counters st) = max_threads
  ∧ Forall (CounterSet_wf n) (thread_counters st).

#[global] Instance CounterSet_wf_dec n cs : Decision (CounterSet_wf n cs).
Proof. unfold CounterSet_wf. apply _. Defined.

#[global] Instance Adapter_wf_dec n max_threads st :
  Decision (Adapter_wf n max_threads st).
Proof. unfold Adapter_wf. apply _. Defined.

#[global] Instance call_ok_dec n max_threads c :
  Decision (call_ok n max_threads c).
Proof. destruct c; simpl; apply _. Defined.

#[global] Instance index_ok_dec n c : Decision (index_ok n c).
Proof. destruct c; simpl; apply _. Defined.

(** ** Specification-level definitions *)

(** The global bank can be read at every column.  This holds for every
    well-formed state, and for every state when the feature is disabled. *)
Definition readable (n : nat) (st : Adapter) : Prop :=
  ∀ i, (i < n)%nat → is_Some (GetRead st i) ∧ is_Some (GetWrite st i).

Definition Snapshot_wf (n : nat) (sn : Snapshot) : Prop :=
  length (read_psum sn) = n ∧ length (write_psum sn) = n.

#[global] Instance Snapshot_wf_dec n sn : Decision (Snapshot_wf n sn).
Proof. unfold Snapshot_wf. apply _. Defined.

(** The global bank reads as zero at every column. *)
Definition reads_zero (n : nat) (st : Adapter) : Prop :=
  ∀ i, (i < n)%nat → GetRead st i = Some 0 ∧ GetWrite st i = Some 0.

(** The rule of the skew pass as the specification words it:
    [diff(s) = |write_fraction(s) - read_fraction(s)|], and the best
    candidate is replaced by [s] exactly when
    [diff(s) > diff(best) * 1.05]. *)
Definition diff (sn : Snapshot) (s : nat) : option float :=
  r ← fraction (read_psum sn) (read_total sn) s;
  w ← fraction (write_psum sn) (write_total sn) s;
  Some (abs (w - r))%float.

Definition skew_rule (sn : Snapshot) (s best : nat) : option nat :=
  ds ← diff sn s;
  db ← diff sn best;
  Some (if (db * 1.05 <? ds)%float then s else best).

(** Candidates [s], [s - 1], ..., [1], in this order. *)
Fixpoint scan_down (rule : nat → nat → option nat) (s best : nat)
    : option nat :=
  match s with
  | O => Some best
  | S k => best' ← rule (S k) best; scan_down rule k best'
  end.

(** Start from [best = COLCOUNT], scan from [COLCOUNT - 1] down to [1]. *)
Definition skew_spec (n : nat) (sn : Snapshot) : option nat :=
  scan_down (skew_rule sn) (n - 1) n.

(** [best_data] caches the fractions of [best_split]. *)
Definition Best_coherent (n : nat) (sn : Snapshot) (b : Best) : Prop :=
  (1 ≤ best_split b ≤ n)%nat
  ∧ fraction (read_psum sn) (read_total sn) (best_split b) = Some (best_read b)
  ∧ fraction (write_psum sn) (write_total sn) (best_split b) = Some (best_write b).

(** A candidate whose diff is [d] would not replace [best]. *)
Definition blocked (sn : Snapshot) (d : float) (best : nat) : Prop :=
  ∃ b, diff sn best = Some b ∧ (b * 1.05 <? d)%float = false.

(** The constant [1.05] as a binary64 value. *)
Definition margin_up : spec_float :=
  S754_finite false 4728779608739021 (-52).

(** The constant [0.95] as a binary64 value. *)
Definition margin_down : spec_float :=
  S754_finite false 8556839292003942 (-53).

(** [|write_fraction(s) - 0.5|], the quantity the balance pass compares. *)
Definition dist (sn : Snapshot) (s : nat) : option float :=
  f ← fraction (write_psum sn) (write_total sn) s;
  Some (abs (f - 0.5))%float.

(** The best split is the initial one [n], or beats it by the margin of
    the skew pass, respectively of the balance pass. *)
Definition beats_skew (n : nat) (sn : Snapshot) (best : nat) : Prop :=
  best = n
  ∨ ∃ dN db, diff sn n = Some dN ∧ diff sn best = Some db
             ∧ (dN * 1.05 <? db)%float = true.

Definition beats_balance (n : nat) (sn : Snapshot) (best : nat) : Prop :=
  best = n
  ∨ ∃ dN db, dist sn n = Some dN ∧ dist sn best = Some db
             ∧ (db <? dN * 0.95)%float = true.

(** The sum of a list of counters, before reduction. *)
Definition sumZ (l : list Z) : Z := foldr Z.add 0 l.

(** Calls that only touch the bank of the calling thread. *)
Definition is_local (c : call) : Prop :=
  match c with
  | CallCountRead _ _ _ | CallCountWrite _ _ _ | CallResetThread _ => True
  | _ => False
  end.

(** Slot-wise addition in [counter_type]. *)
Definition add_counters (g t : list Z) : list Z :=
  zip_with (λ x y, wrap (x + y)) g t.

Definition add_sets (g t : CounterSet) : CounterSet :=
  {| read_counters := add_counters (read_counters g) (read_counters t);
     write_counters := add_counters (write_counters g) (write_counters t) |}.

(** What a call preserves: the shape of the banks, the flag, and a
    split that is either the initial sentinel or a valid candidate. *)
Definition split_ok (n : nat) (st : Adapter) : Prop :=
  (current_split st ≤ n)%nat.

(** The sum of [f t] over the threads [t] of [T]. *)
Definition sum_over (f : nat → Z) (T : list nat) : Z :=
  foldr (λ t acc, f t + acc) 0 T.

(** The amounts a sequence of calls records for thread [t] on column [c]. *)
Fixpoint recorded_reads (t c : nat) (cs : list call) : Z :=
  match cs with
  | [] => 0
  | CallCountRead t' c' n :: rest =>
      (if decide (t = t' ∧ c = c') then n else 0) + recorded_reads t c rest
  | _ :: rest => recorded_reads t c rest
  end.

Fixpoint recorded_writes (t c : nat) (cs : list call) : Z :=
  match cs with
  | [] => 0
  | CallCountWrite t' c' n :: rest =>
      (if decide (t = t' ∧ c = c') then n else 0) + recorded_writes t c rest
  | _ :: rest => recorded_writes t c rest
  end.

Definition is_count (c : call) : Prop :=
  match c with
  | CallCountRead _ _ _ | CallCountWrite _ _ _ => True
  | _ => False
  end.

(** The flags and the published splits of two back-to-back calls. *)
Definition RecomputeSplit_twice (n : nat) (st : Adapter)
    : option (bool * nat * bool * nat) :=
  '(changed1, st1) ← RecomputeSplit n st;
  '(changed2, st2) ← RecomputeSplit n st1;
  Some (changed1, current_split st1, changed2, current_split st2).

(** ** The scenarios of the test plan, for [COLCOUNT = 4] *)

(** The feature is enabled, one worker thread, nothing published yet. *)
Definition bank (reads writes : list Z) : Adapter :=
  set_global_counters
    {| read_counters := reads; write_counters := writes |}
    (INITIALIZE_ADAPTER 4 1 true).

Definition skewed_bank : Adapter := bank [10; 10; 10; 10] [0; 0; 40; 40].
Definition uniform_bank : Adapter := bank [5; 5; 5; 5] [5; 5; 5; 5].

(** One worker records the counts of the first scenario and commits. *)
Definition skewed_calls : list call :=
  [ CallCountRead 0 0 10; CallCountRead 0 1 10;
    CallCountRead 0 2 10; CallCountRead 0 3 10;
    CallCountWrite 0 2 40; CallCountWrite 0 3 40;
    CallCommit 0 ].

(** The state these calls lead to from the initial one. *)
Definition skewed_committed : Adapter :=
  set_thread_counters
    [ {| read_counters := [10; 10; 10; 10]; write_counters := [0; 0; 40; 40] |} ]
    skewed_bank.

Definition skewed_snapshot : Snapshot :=
  {| read_psum := [10; 20; 30; 40]; write_psum := [0; 0; 40; 80];
     read_total := 40; write_total := 80 |}.

(** Two workers that have counted and not yet committed. *)
Definition two_workers : Adapter :=
  set_thread_counters
    [ {| read_counters := [10; 10; 10; 10]; write_counters := [0; 0; 40; 40] |};
      {| read_counters := [1; 2; 3; 4]; write_counters := [5; 0; 0; 7] |} ]
    (INITIALIZE_ADAPTER 4 2 true).





(** A bank that has seen reads only, and one that has seen writes only. *)
Definition read_only_bank : Adapter := bank [3; 1; 4; 1] [0; 0; 0; 0].
Definition write_only_bank : Adapter := bank [0; 0; 0; 0] [5; 5; 5; 5].

(** Calls that stay inside the banks of the calling threads. *)
Definition local_calls : list call :=
  [ CallCountRead 0 1 3; CallCountWrite 1 2 7; CallResetThread 0 ].

Ltac solve_wf :=
  repeat match goal with
    | |- Adapter_wf _ _ _ => unfold Adapter_wf, CounterSet_wf; simpl
    | |- CounterSet_wf _ _ => unfold CounterSet_wf; simpl
    | |- Snapshot_wf _ _ => unfold Snapshot_wf; simpl
    | |- _ ∧ _ => split
    | |- Forall _ _ => constructor
    | |- is_counter _ => by vm_compute
    | |- call_ok _ _ _ => simpl; lia
    | |- index_ok _ _ => simpl; lia
    | |- _ = _ => reflexivity
    | |- (_ < _)%nat => lia
    | |- (_ ≤ _)%nat => lia
    end.

(** * Properties *)

(** ** Loops *)

Lemma for_loop_app {A} (body : nat → A → option A) l1 l2 a :
  for_loop body (l1 ++ l2) a = for_loop body l1 a ≫= for_loop body l2.
Proof.
  revert a. induction l1 as [|i l1 IH]; intros a; simpl; [done|].
  destruct (body i a) as [a'|]; simpl; [apply IH | done].
Qed.

(** Invariant rule: every iteration is defined on states satisfying [P]
    and re-establishes [P]. *)
Lemma for_loop_inv {A} (P : A → Prop) (body : nat → A → option A) l a :
  P a →
  (∀ i x, i ∈ l → P x → ∃ y, body i x = Some y ∧ P y) →
  ∃ y, for_loop body l a = Some y ∧ P y.
Proof.
  revert a. induction l as [|i l IH]; intros a Ha Hstep; simpl; [eauto|].
  destruct (Hstep i a) as (y & -> & Hy); [left | done |]. simpl.
  apply IH; [done|]. intros j x Hj. apply Hstep. by right.
Qed.

(** Indexed invariant rule for an ascending loop. *)
Lemma for_loop_seq_inv {A} (P : nat → A → Prop) (body : nat → A → option A)
    (s n : nat) a :
  P s a →
  (∀ i x, (s ≤ i < s + n)%nat → P i x → ∃ y, body i x = Some y ∧ P (S i) y) →
  ∃ y, for_loop body (seq s n) a = Some y ∧ P (s + n)%nat y.
Proof.
  revert s a. induction n as [|n IH]; intros s a Ha Hstep; simpl.
  - rewrite Nat.add_0_r. eauto.
  - destruct (Hstep s a) as (y & -> & Hy); [lia | done |]. simpl.
    replace (s + S n)%nat with (S s + n)%nat by lia.
    apply IH; [done|]. intros i x Hi. apply Hstep. lia.
Qed.

Lemma elem_of_descending n s : s ∈ descending n ↔ (1 ≤ s < n)%nat.
Proof.
  unfold descending. rewrite elem_of_reverse, elem_of_seq. lia.
Qed.

Lemma descending_S n : (1 ≤ n)%nat → descending (S n) = n :: descending n.
Proof.
  intros Hn. unfold descending.
  replace (S n - 1)%nat with (S (n - 1)) by lia.
  rewrite seq_S, reverse_snoc.
  f_equal. lia.
Qed.

(** ** Binary64 arithmetic: the hysteresis margin

    What the tie-breaking of the skew pass rests on: rounding the product
    of a non-negative value with [1.05] never yields less than the value,
    and the ordered comparison is a strict weak order away from NaN. *)

(** Number of binary digits. *)
Lemma digits2_pos_size p : digits2_pos p = Pos.size p.
Proof. induction p as [p IH|p IH|]; simpl; by rewrite ?IH. Qed.

Lemma digits2_pos_bounds p :
  2 ^ (Zpos (digits2_pos p) - 1) ≤ Zpos p < 2 ^ Zpos (digits2_pos p).
Proof.
  rewrite digits2_pos_size. split.
  - pose proof (Pos.size_le p) as H.
    assert (Zpos (2 ^ Pos.size p) ≤ Zpos p~0) as H' by exact H.
    rewrite Pos2Z.inj_pow in H'.
    replace (Zpos (Pos.size p)) with (Zpos (Pos.size p) - 1 + 1) in H' by lia.
    rewrite Z.pow_add_r in H' by lia. lia.
  - pose proof (Pos.size_gt p) as H.
    assert (Zpos p < Zpos (2 ^ Pos.size p)) as H' by exact H.
    by rewrite Pos2Z.inj_pow in H'.
Qed.

(** *** Right shifts of the rounding procedure *)

Lemma shr_1_m mrs : 0 ≤ shr_m mrs → shr_m (shr_1 mrs) = shr_m mrs / 2.
Proof.
  destruct mrs as [m r s]. cbn [shr_m]. intros Hm.
  destruct m as [|[p|p|]|p]; cbn [shr_1 shr_m]; [done | | | done | lia].
  - apply Z.div_unique with 1; lia.
  - apply Z.div_unique with 0; lia.
Qed.

Lemma iter_shr_1_m p mrs :
  0 ≤ shr_m mrs →
  shr_m (SpecFloat.iter_pos shr_1 p mrs) = shr_m mrs / 2 ^ Zpos p.
Proof.
  assert (Hpow : ∀ q : positive, 0 < 2 ^ Zpos q)
    by (intros q; apply Z.pow_pos_nonneg; lia).
  revert mrs. induction p as [p IH|p IH|]; intros mrs Hm;
    cbn [SpecFloat.iter_pos].
  - assert (H1 : 0 ≤ shr_m (shr_1 mrs)).
    { rewrite shr_1_m by done. apply Z.div_pos; lia. }
    assert (H2 : 0 ≤ shr_m (SpecFloat.iter_pos shr_1 p (shr_1 mrs))).
    { rewrite IH by done. apply Z.div_pos; [done | apply Hpow]. }
    rewrite IH, IH, shr_1_m by done.
    pose proof (Hpow p).
    rewrite !Z.div_div by lia.
    replace (Zpos p~1) with (1 + Zpos p + Zpos p) by lia.
    by rewrite !Z.pow_add_r, Z.pow_1_r, Z.mul_assoc by lia.
  - assert (H2 : 0 ≤ shr_m (SpecFloat.iter_pos shr_1 p mrs)).
    { rewrite IH by done. apply Z.div_pos; [done | apply Hpow]. }
    rewrite IH, IH by done.
    pose proof (Hpow p).
    rewrite !Z.div_div by lia.
    replace (Zpos p~0) with (Zpos p + Zpos p) by lia.
    by rewrite !Z.pow_add_r by lia.
  - rewrite shr_1_m by done. done.
Qed.

Lemma shr_spec mrs e n :
  0 ≤ shr_m mrs →
  shr_m (fst (shr mrs e n)) = shr_m mrs / 2 ^ Z.max n 0
  ∧ snd (shr mrs e n) = e + Z.max n 0.
Proof.
  intros Hm. destruct n as [|p|p]; cbn [shr fst snd].
  - change (Z.max 0 0) with 0. rewrite Z.pow_0_r, Z.div_1_r. lia.
  - rewrite Z.max_l by lia. split; [|lia]. by rewrite iter_shr_1_m.
  - rewrite Z.max_r by lia. rewrite Z.pow_0_r, Z.div_1_r. lia.
Qed.

Lemma shr_record_of_loc_m m l : shr_m (shr_record_of_loc m l) = m.
Proof. by destruct l as [|[]]. Qed.

Lemma round_nearest_even_bounds q l :
  q ≤ round_nearest_even q l ≤ q + 1.
Proof. destruct l as [|[]]; simpl; try lia. destruct (Z.even q); lia. Qed.

Lemma binary_round_aux_spec sx mx ex lx :
  0 ≤ mx →
  ∃ m1 : Z,
    let n1 := Z.max (fexp prec emax (Zdigits2 mx + ex) - ex) 0 in
    let e1 := ex + n1 in
    let n2 := Z.max (fexp prec emax (Zdigits2 m1 + e1) - e1) 0 in
    mx / 2 ^ n1 ≤ m1 ≤ mx / 2 ^ n1 + 1
    ∧ binary_round_aux prec emax sx mx ex lx
      = match m1 / 2 ^ n2 with
        | Z0 => S754_zero sx
        | Zpos m =>
            if e1 + n2 <=? emax - prec then S754_finite sx m (e1 + n2)
            else S754_infinity sx
        | Zneg _ => S754_nan
        end.
Proof.
  intros Hmx. unfold binary_round_aux, shr_fexp.
  set (n1' := fexp prec emax (Zdigits2 mx + ex) - ex).
  destruct (shr_spec (shr_record_of_loc mx lx) ex n1') as [Hm1 He1].
  { by rewrite shr_record_of_loc_m. }
  rewrite shr_record_of_loc_m in Hm1.
  destruct (shr (shr_record_of_loc mx lx) ex n1') as [mrs1 e1].
  cbn [fst snd] in Hm1, He1. subst e1.
  set (m1 := round_nearest_even (shr_m mrs1) (loc_of_shr_record mrs1)).
  exists m1.
  pose proof (round_nearest_even_bounds (shr_m mrs1) (loc_of_shr_record mrs1))
    as Hb. fold m1 in Hb. rewrite Hm1 in Hb.
  cbv zeta. split; [done|].
  set (e1 := ex + Z.max n1' 0).
  set (n2' := fexp prec emax (Zdigits2 m1 + e1) - e1).
  assert (0 ≤ m1).
  { assert (0 ≤ mx / 2 ^ Z.max n1' 0); [|lia].
    apply Z.div_pos; [done|]. apply Z.pow_pos_nonneg; lia. }
  destruct (shr_spec (shr_record_of_loc m1 loc_Exact) e1 n2') as [Hm2 He2].
  { by rewrite shr_record_of_loc_m. }
  rewrite shr_record_of_loc_m in Hm2.
  destruct (shr (shr_record_of_loc m1 loc_Exact) e1 n2') as [mrs2 e2].
  cbn [fst snd] in Hm2, He2. subst e2. rewrite Hm2. done.
Qed.

(** *** Multiplication by the margin *)

Lemma margin_up_eq : Prim2SF 1.05 = margin_up.
Proof. reflexivity. Qed.

Lemma pow2_le a b : 0 ≤ a ≤ b → 2 ^ a ≤ 2 ^ b.
Proof. intros. apply Z.pow_le_mono_r; lia. Qed.

Lemma div_pow2_pos x n : 0 ≤ n → 2 ^ n ≤ x → 1 ≤ x / 2 ^ n.
Proof.
  intros Hn Hx. assert (0 < 2 ^ n) by (apply Z.pow_pos_nonneg; lia).
  apply Z.div_le_lower_bound; lia.
Qed.

Lemma SFmul_margin_up_not_below m e :
  bounded prec emax m e = true →
  SFltb (SFmul prec emax (S754_finite false m e) margin_up)
        (S754_finite false m e) = false.
Proof.
  intros [Hcan Hmax]%andb_prop. unfold canonical_mantissa in Hcan.
  apply Z.eqb_eq in Hcan. apply Z.leb_le in Hmax.
  unfold margin_up. cbn [SFmul xorb].
  set (mc := 4728779608739021%positive).
  destruct (binary_round_aux_spec false (Zpos (m * mc)) (e + -52) loc_Exact)
    as (m1 & Hm1 & ->); [lia|].
  cbn [Zdigits2] in *.
  pose proof (digits2_pos_bounds m) as [Hdm1 Hdm2].
  pose proof (digits2_pos_bounds (m * mc)) as [HD1 HD2].
  set (dm := Zpos (digits2_pos m)) in *.
  set (D := Zpos (digits2_pos (m * mc))) in *.
  assert (Hdmpos : 1 ≤ dm) by (unfold dm; lia).
  unfold fexp, emin, prec, emax in *.
  assert (HmcZ : Zpos (m * mc) = Zpos m * Zpos mc) by apply Pos2Z.inj_mul.
  assert (Hmc : 2 ^ 52 ≤ Zpos mc) by by vm_compute.
  (* the product has at least 52 more digits than [m] *)
  assert (HD : dm + 52 ≤ D).
  { assert (2 ^ (dm - 1 + 52) < 2 ^ D) as Hlt.
    { rewrite Z.pow_add_r by lia.
      assert (0 < 2 ^ (dm - 1)) by (apply Z.pow_pos_nonneg; lia). nia. }
    apply Z.pow_lt_mono_r_iff in Hlt; lia. }
  set (n1 := Z.max (Z.max (D + (e + -52) - 53) (3 - 1024 - 53) - (e + -52)) 0)
    in *.
  assert (Hn1 : 52 ≤ n1 ≤ D - 1) by lia.
  assert (Hq : 1 ≤ Zpos (m * mc) / 2 ^ n1).
  { apply div_pow2_pos; [lia|]. etrans; [|exact HD1]. apply pow2_le. lia. }
  destruct m1 as [|pm1|pm1]; [lia| |lia].
  cbn [Zdigits2] in *.
  pose proof (digits2_pos_bounds pm1) as [HE1 HE2].
  set (D1 := Zpos (digits2_pos pm1)) in *.
  assert (HD1pos : 1 ≤ D1) by (unfold D1; lia).
  set (e1 := e + -52 + n1) in *.
  set (n2 := Z.max (Z.max (D1 + e1 - 53) (3 - 1024 - 53) - e1) 0) in *.
  assert (He1 : e ≤ e1) by lia.
  assert (Hn2 : 0 ≤ n2 ≤ D1 - 1) by lia.
  assert (Hq2 : 1 ≤ Zpos pm1 / 2 ^ n2).
  { apply div_pow2_pos; [lia|]. etrans; [|exact HE1]. apply pow2_le. lia. }
  destruct (Zpos pm1 / 2 ^ n2) as [|m2|m2] eqn:Hm2; [lia| |lia].
  destruct (e1 + n2 <=? 1024 - 53); [|done].
  unfold SFltb. cbn [SFcompare].
  destruct (Z.compare_spec (e1 + n2) e) as [Heq|Hlt|Hgt]; [|lia|done].
  (* same exponent: nothing was shifted beyond the 52 bits of the
     constant, and the mantissa did not shrink *)
  assert (n2 = 0) as Hn20 by lia. assert (n1 = 52) as Hn152 by lia.
  rewrite Hn20, Z.pow_0_r, Z.div_1_r in Hm2. injection Hm2 as ->.
  rewrite Hn152 in Hm1.
  assert (Zpos m ≤ Zpos (m * mc) / 2 ^ 52).
  { apply Z.div_le_lower_bound; [by vm_compute|]. nia. }
  change (Pos.compare_cont Eq m2 m) with (Pos.compare m2 m).
  destruct (Pos.compare_spec m2 m); [done | lia | done].
Qed.

(** *** The order of [<] *)

Ltac SFcompare_cases :=
  unfold SFltb; cbn [SFcompare];
  repeat match goal with
    | |- context [Pos.compare_cont Eq ?a ?b] =>
        change (Pos.compare_cont Eq a b) with (Pos.compare a b)
    | |- context [Z.compare ?a ?b] => destruct (Z.compare_spec a b)
    | |- context [Pos.compare ?a ?b] => destruct (Pos.compare_spec a b)
    end;
  cbn [CompOpp]; try done; try lia.

Lemma SFltb_trans a b c :
  SFltb a b = true → SFltb b c = true → SFltb a c = true.
Proof.
  destruct a as [[]|[]| |[] ma ea], b as [[]|[]| |[] mb eb],
    c as [[]|[]| |[] mc ec]; try done; SFcompare_cases.
Qed.

Lemma SFltb_le_lt a b c :
  a ≠ S754_nan → SFltb b a = false → SFltb b c = true → SFltb a c = true.
Proof.
  destruct a as [[]|[]| |[] ma ea], b as [[]|[]| |[] mb eb],
    c as [[]|[]| |[] mc ec]; try done; SFcompare_cases.
Qed.

(** *** On [double] values *)

Lemma ltb_margin_self (x : float) : (abs x * 1.05 <? abs x)%float = false.
Proof.
  rewrite ltb_spec, mul_spec, abs_spec, margin_up_eq.
  pose proof (Prim2SF_valid x) as Hv.
  destruct (Prim2SF x) as [s|s| |s m e]; try reflexivity.
  by apply SFmul_margin_up_not_below.
Qed.

Lemma ltb_margin_mono (d b b' : float) :
  (abs b * 1.05 <? d)%float = false →
  (abs b * 1.05 <? abs b')%float = true →
  (abs b' * 1.05 <? d)%float = false.
Proof.
  intros Hbd Hbb'. destruct (abs b' * 1.05 <? d)%float eqn:Hb'd; [|done].
  exfalso. pose proof (ltb_margin_self b') as Hself.
  rewrite ltb_spec in *.
  assert (Prim2SF (abs b') ≠ S754_nan) as Hnan.
  { intros Hn. rewrite mul_spec, Hn in Hb'd. done. }
  pose proof (SFltb_le_lt _ _ _ Hnan Hself Hb'd) as H1.
  pose proof (SFltb_trans _ _ _ Hbb' H1). congruence.
Qed.

(** ** The snapshot loop *)

Section Snapshot.

Context (NCOUNTERS : nat).

Lemma wf_readable max_threads st :
  Adapter_wf NCOUNTERS max_threads st → readable NCOUNTERS st.
Proof.
  intros ((Hr & Hw & _) & _) i Hi. unfold GetRead, GetWrite.
  destruct (Enabled st); [|by eauto].
  split; apply lookup_lt_is_Some; lia.
Qed.

Lemma disabled_readable st : Enabled st = false → readable NCOUNTERS st.
Proof. intros He i _. unfold GetRead, GetWrite. rewrite He. eauto. Qed.

Lemma take_snapshot_wf st :
  readable NCOUNTERS st →
  ∃ sn, take_snapshot NCOUNTERS st = Some sn ∧ Snapshot_wf NCOUNTERS sn.
Proof.
  intros Hrd. unfold take_snapshot, ascending.
  destruct (for_loop_seq_inv (λ _, Snapshot_wf NCOUNTERS) (snapshot_body st)
              0 NCOUNTERS (snapshot_init NCOUNTERS)) as (sn & Hsn & Hwf).
  - split; simpl; apply length_replicate.
  - intros i sn [_ Hi] [Hr Hw]. simpl in Hi.
    destruct (Hrd i Hi) as [[r Hgr] [w Hgw]].
    unfold snapshot_body. rewrite Hgr, Hgw. simpl.
    destruct i as [|prev]; simpl.
    + eexists. split; [done|]. split; simpl; by rewrite length_insert.
    + destruct (lookup_lt_is_Some_2 (read_psum sn) prev) as [rp ->]; [lia|].
      destruct (lookup_lt_is_Some_2 (write_psum sn) prev) as [wp ->]; [lia|].
      simpl. eexists. split; [done|]. split; simpl; by rewrite length_insert.
  - eauto.
Qed.

Lemma take_snapshot_zero st :
  reads_zero NCOUNTERS st → take_snapshot NCOUNTERS st = Some (snapshot_init NCOUNTERS).
Proof.
  intros Hz. unfold take_snapshot, ascending.
  destruct (for_loop_inv (λ sn, sn = snapshot_init NCOUNTERS) (snapshot_body st)
              (seq 0 NCOUNTERS) (snapshot_init NCOUNTERS)) as (sn & Hsn & ->);
    [done | | done].
  intros i sn Hi ->. apply elem_of_seq in Hi.
  destruct (Hz i) as [Hgr Hgw]; [lia|].
  unfold snapshot_body. rewrite Hgr, Hgw. simpl.
  assert (Hins : <[i := 0]> (replicate NCOUNTERS 0) = replicate NCOUNTERS 0).
  { apply list_insert_id, lookup_replicate_2. lia. }
  destruct i as [|prev]; simpl.
  - eexists. split; [done|]. unfold snapshot_init. by rewrite Hins.
  - rewrite lookup_replicate_2 by lia. simpl.
    eexists. split; [done|]. unfold snapshot_init.
    change (wrap (0 + 0)) with 0. by rewrite Hins.
Qed.

(** *** Fractions *)

Lemma fraction_is_Some psum total s :
  (1 ≤ s ≤ length psum)%nat → is_Some (fraction psum total s).
Proof.
  intros Hs. destruct s as [|k]; [lia|]. simpl.
  destruct (lookup_lt_is_Some_2 psum k) as [p ->]; [lia|]. simpl. eauto.
Qed.

Lemma fraction_zero_total n s :
  (1 ≤ s ≤ n)%nat → fraction (replicate n 0) 0 s = Some nan.
Proof.
  intros Hs. destruct s as [|k]; [lia|]. simpl.
  rewrite lookup_replicate_2 by lia. reflexivity.
Qed.

End Snapshot.

(** ** The skew pass *)

Section Skew.

Context (NCOUNTERS : nat).

Lemma skew_body_rule sn s b :
  Snapshot_wf NCOUNTERS sn → (1 ≤ s ≤ NCOUNTERS)%nat → Best_coherent NCOUNTERS sn b →
  ∃ b', skew_body sn s b = Some b' ∧ Best_coherent NCOUNTERS sn b'
        ∧ skew_rule sn s (best_split b) = Some (best_split b').
Proof.
  intros [Hr Hw] Hs (Hb & Hbr & Hbw).
  destruct (fraction_is_Some (read_psum sn) (read_total sn) s) as [cr Hcr];
    [lia|].
  destruct (fraction_is_Some (write_psum sn) (write_total sn) s) as [cw Hcw];
    [lia|].
  unfold skew_body, skew_rule, diff. rewrite Hcr, Hcw, Hbr, Hbw. simpl.
  destruct (_ <? _)%float; eexists; (split; [done|]); split; try done.
Qed.

Lemma skew_loop_scan sn k b :
  Snapshot_wf NCOUNTERS sn → (k < NCOUNTERS)%nat → Best_coherent NCOUNTERS sn b →
  ∃ b', for_loop (skew_body sn) (descending (S k)) b = Some b'
        ∧ Best_coherent NCOUNTERS sn b'
        ∧ scan_down (skew_rule sn) k (best_split b) = Some (best_split b').
Proof.
  intros Hsn. revert b. induction k as [|k IH]; intros b Hk Hb.
  - exists b. by vm_compute.
  - rewrite descending_S by lia. cbn [for_loop scan_down].
    destruct (skew_body_rule sn (S k) b) as (b1 & -> & Hb1 & ->);
      [done | lia | done |]. simpl.
    apply IH; [lia | done].
Qed.

Lemma skew_pass_scan sn :
  Snapshot_wf NCOUNTERS sn → (1 ≤ NCOUNTERS)%nat →
  ∃ b, skew_pass NCOUNTERS sn = Some b ∧ Best_coherent NCOUNTERS sn b
       ∧ skew_spec NCOUNTERS sn = Some (best_split b).
Proof.
  intros Hsn Hn. pose proof Hsn as [Hr Hw]. unfold skew_pass, skew_spec.
  destruct (fraction_is_Some (read_psum sn) (read_total sn) NCOUNTERS)
    as [r Hfr]; [lia|].
  destruct (fraction_is_Some (write_psum sn) (write_total sn) NCOUNTERS)
    as [w Hfw]; [lia|].
  rewrite Hfr, Hfw. simpl.
  replace (descending NCOUNTERS) with (descending (S (NCOUNTERS - 1)))
    by (f_equal; lia).
  apply (skew_loop_scan sn (NCOUNTERS - 1)
           {| best_split := NCOUNTERS; best_read := r; best_write := w |});
    [done | lia |].
  split; [simpl; lia|]. done.
Qed.

(** *** Ties *)

Lemma diff_is_abs sn s d : diff sn s = Some d → ∃ x, d = abs x.
Proof.
  unfold diff.
  destruct (fraction (read_psum sn) _ s) as [r|]; simpl; [|done].
  destruct (fraction (write_psum sn) _ s) as [w|]; simpl; [|done].
  intros [= <-]. eauto.
Qed.

Lemma diff_is_Some sn s :
  Snapshot_wf NCOUNTERS sn → (1 ≤ s ≤ NCOUNTERS)%nat → is_Some (diff sn s).
Proof.
  intros [Hr Hw] Hs. unfold diff.
  destruct (fraction_is_Some (read_psum sn) (read_total sn) s) as [r ->];
    [lia|].
  destruct (fraction_is_Some (write_psum sn) (write_total sn) s) as [w ->];
    [lia|].
  simpl. eauto.
Qed.

Lemma skew_rule_defined sn s best best' :
  skew_rule sn s best = Some best' →
  ∃ ds db, diff sn s = Some ds ∧ diff sn best = Some db
           ∧ best' = if (db * 1.05 <? ds)%float then s else best.
Proof.
  unfold skew_rule. destruct (diff sn s) as [ds|]; simpl; [|done].
  destruct (diff sn best) as [db|]; simpl; [|done].
  intros [= <-]. eauto.
Qed.

(** A candidate never beats itself. *)
Lemma blocked_self sn s d : diff sn s = Some d → blocked sn d s.
Proof.
  intros Hd. exists d. split; [done|].
  destruct (diff_is_abs sn s d Hd) as [x ->]. apply ltb_margin_self.
Qed.

Lemma skew_rule_tie sn s best d :
  diff sn s = Some d → blocked sn d best → skew_rule sn s best = Some best.
Proof.
  intros Hs (b & Hb & Hlt). unfold skew_rule. rewrite Hs, Hb. simpl.
  by rewrite Hlt.
Qed.

(** After its own iteration a candidate is blocked by the best one. *)
Lemma skew_rule_blocks_candidate sn s best best' d :
  skew_rule sn s best = Some best' → diff sn s = Some d → blocked sn d best'.
Proof.
  intros (ds & db & Hs & Hb & ->)%skew_rule_defined Hd.
  assert (ds = d) as -> by congruence.
  destruct (db * 1.05 <? d)%float eqn:Hlt; [by apply blocked_self|].
  by exists db.
Qed.

(** A blocked candidate stays blocked when the best one is replaced. *)
Lemma skew_rule_keeps_blocked sn s best best' d :
  skew_rule sn s best = Some best' → blocked sn d best → blocked sn d best'.
Proof.
  intros (ds & db & Hs & Hb & ->)%skew_rule_defined (b & Hb' & Hbd).
  assert (b = db) as -> by congruence.
  destruct (db * 1.05 <? ds)%float eqn:Hlt; [|by exists db].
  exists ds. split; [done|].
  destruct (diff_is_abs sn best db Hb) as [x ->].
  destruct (diff_is_abs sn s ds Hs) as [y ->].
  by apply (ltb_margin_mono d x y).
Qed.

Lemma scan_down_result sn k best r :
  scan_down (skew_rule sn) k best = Some r → r = best ∨ (1 ≤ r ≤ k)%nat.
Proof.
  revert best. induction k as [|k IH]; intros best; simpl.
  - intros [= <-]. by left.
  - destruct (skew_rule sn (S k) best) as [best'|] eqn:Hrule; simpl; [|done].
    intros Hr. destruct (IH best' Hr) as [->|?]; [|right; lia].
    apply skew_rule_defined in Hrule as (ds & db & _ & _ & ->).
    destruct (_ <? _)%float; [right; lia | by left].
Qed.

(** A candidate whose diff equals that of a candidate seen before it is
    never the result. *)
Lemma scan_down_larger_wins sn k best r :
  (∀ s2, (k < s2 ≤ NCOUNTERS)%nat →
     ∃ d, diff sn s2 = Some d ∧ blocked sn d best) →
  (k < best)%nat →
  scan_down (skew_rule sn) k best = Some r →
  ∀ s1 s2, (1 ≤ s1 ≤ k)%nat → (s1 < s2 ≤ NCOUNTERS)%nat →
    diff sn s1 = diff sn s2 → r ≠ s1.
Proof.
  revert best.
  induction k as [|k IH]; intros best Hinv Hbest Hscan s1 s2 Hs1 Hs2 Heq;
    [lia|].
  simpl in Hscan.
  destruct (skew_rule sn (S k) best) as [best'|] eqn:Hrule; simpl in Hscan;
    [|done].
  destruct (decide (s1 = S k)) as [->|Hne].
  - destruct (Hinv s2) as (d & Hd & Hbl); [lia|]. rewrite Hd in Heq.
    rewrite (skew_rule_tie sn (S k) best d Heq Hbl) in Hrule.
    injection Hrule as <-.
    destruct (scan_down_result _ _ _ _ Hscan) as [->|?]; lia.
  - apply (IH best') with (s2 := s2); [ | | done | lia | done | done].
    + intros s Hs. destruct (decide (s = S k)) as [->|Hne'].
      * pose proof Hrule as (ds & db & Hds & _)%skew_rule_defined.
        exists ds. split; [done|].
        by apply (skew_rule_blocks_candidate sn (S k) best).
      * destruct (Hinv s) as (d & Hd & Hbl); [lia|].
        exists d. split; [done|].
        by apply (skew_rule_keeps_blocked sn (S k) best).
    + apply skew_rule_defined in Hrule as (ds & db & _ & _ & ->).
      destruct (_ <? _)%float; lia.
Qed.

Lemma skew_spec_larger_wins sn r :
  Snapshot_wf NCOUNTERS sn →
  skew_spec NCOUNTERS sn = Some r →
  ∀ s1 s2, (1 ≤ s1)%nat → (s1 < s2 ≤ NCOUNTERS)%nat →
    diff sn s1 = diff sn s2 → r ≠ s1.
Proof.
  intros Hsn Hr s1 s2 Hs1 Hs2 Heq. unfold skew_spec in Hr.
  apply (scan_down_larger_wins sn (NCOUNTERS - 1) NCOUNTERS r)
    with (s2 := s2); [ | lia | done | lia | done | done].
  intros s Hs. assert (s = NCOUNTERS) as -> by lia.
  destruct (diff_is_Some sn NCOUNTERS Hsn) as [d Hd]; [lia|].
  exists d. split; [done|]. by apply blocked_self.
Qed.

End Skew.

(** ** The balance pass and the result of [ComputeSplitIndex] *)

Section Compute.

Context (NCOUNTERS : nat).

Lemma balance_pass_range sn best :
  Snapshot_wf NCOUNTERS sn → (1 ≤ best ≤ NCOUNTERS)%nat →
  ∃ r, balance_pass NCOUNTERS sn best = Some r ∧ (1 ≤ r ≤ NCOUNTERS)%nat.
Proof.
  intros [_ Hw] Hb. unfold balance_pass.
  destruct (decide (best = NCOUNTERS)) as [_|_]; [|by eauto].
  apply (for_loop_inv (λ r, (1 ≤ r ≤ NCOUNTERS)%nat)); [done|].
  intros s r Hs%elem_of_descending Hr. unfold balance_body.
  destruct (fraction_is_Some (write_psum sn) (write_total sn) r) as [bf ->];
    [lia|].
  destruct (fraction_is_Some (write_psum sn) (write_total sn) s) as [cf ->];
    [lia|].
  simpl. destruct (_ <? _)%float; eexists; (split; [done|]); lia.
Qed.

Lemma ComputeSplitIndex_range st :
  readable NCOUNTERS st → (1 ≤ NCOUNTERS)%nat →
  ∃ k, ComputeSplitIndex NCOUNTERS st = Some k ∧ (1 ≤ k ≤ NCOUNTERS)%nat.
Proof.
  intros Hrd Hn. unfold ComputeSplitIndex.
  destruct (take_snapshot_wf NCOUNTERS st Hrd) as (sn & -> & Hsn). simpl.
  destruct (skew_pass_scan NCOUNTERS sn Hsn Hn) as (b & -> & (Hb & _) & _).
  simpl. by apply balance_pass_range.
Qed.

(** With a zero total every fraction is [0.0 / 0.0], a NaN; no comparison
    succeeds and the initial candidate survives both passes. *)
Lemma skew_pass_zero :
  (1 ≤ NCOUNTERS)%nat →
  skew_pass NCOUNTERS (snapshot_init NCOUNTERS)
  = Some {| best_split := NCOUNTERS; best_read := nan; best_write := nan |}.
Proof.
  intros Hn. unfold skew_pass. simpl.
  rewrite fraction_zero_total by lia. simpl.
  match goal with |- for_loop ?body ?l ?b = _ =>
    destruct (for_loop_inv (λ x, x = b) body l b) as (y & Hy & ->);
      [done | | done]
  end.
  intros s b Hs%elem_of_descending ->. unfold skew_body. simpl.
  rewrite fraction_zero_total by lia. simpl. eauto.
Qed.

Lemma balance_pass_zero :
  (1 ≤ NCOUNTERS)%nat →
  balance_pass NCOUNTERS (snapshot_init NCOUNTERS) NCOUNTERS = Some NCOUNTERS.
Proof.
  intros Hn. unfold balance_pass. rewrite decide_True by done.
  match goal with |- for_loop ?body ?l ?b = _ =>
    destruct (for_loop_inv (λ x, x = b) body l b) as (y & Hy & ->);
      [done | | done]
  end.
  intros s b Hs%elem_of_descending ->. unfold balance_body. simpl.
  rewrite !fraction_zero_total by lia. simpl. eauto.
Qed.

Lemma ComputeSplitIndex_zero st :
  reads_zero NCOUNTERS st → (1 ≤ NCOUNTERS)%nat →
  ComputeSplitIndex NCOUNTERS st = Some NCOUNTERS.
Proof.
  intros Hz Hn. unfold ComputeSplitIndex.
  rewrite take_snapshot_zero by done. simpl.
  rewrite skew_pass_zero by done. simpl.
  by apply balance_pass_zero.
Qed.

(** Without a column there is no valid candidate: the initial
    [read_psum[best_split - 1]] is an access outside the array. *)
Lemma ComputeSplitIndex_no_columns st : ComputeSplitIndex 0 st = None.
Proof. reflexivity. Qed.

End Compute.

(** ** Commit *)

Section CommitProps.

Context (NCOUNTERS : nat).

Lemma lookup_add_counters g t c :
  add_counters g t !! c = x ← g !! c; y ← t !! c; Some (wrap (x + y)).
Proof.
  unfold add_counters. rewrite lookup_zip_with.
  destruct (g !! c); simpl; [|done]. by destruct (t !! c).
Qed.

Lemma length_add_counters g t :
  length g = length t → length (add_counters g t) = length g.
Proof. intros H. unfold add_counters. rewrite length_zip_with. lia. Qed.

Lemma wrap_is_counter z : is_counter (wrap z).
Proof. apply Z.mod_pos_bound. by vm_compute. Qed.

Lemma wrap_small z : is_counter z → wrap z = z.
Proof. apply Z.mod_small. Qed.

Lemma wrap_add_l a b : wrap (wrap a + b) = wrap (a + b).
Proof. apply Zplus_mod_idemp_l. Qed.

Lemma wrap_add_r a b : wrap (a + wrap b) = wrap (a + b).
Proof. apply Zplus_mod_idemp_r. Qed.

Lemma Forall_add_counters g t : Forall is_counter (add_counters g t).
Proof.
  apply Forall_lookup. intros c z. rewrite lookup_add_counters.
  destruct (g !! c); simpl; [|done]. destruct (t !! c); simpl; [|done].
  intros [= <-]. apply wrap_is_counter.
Qed.

Lemma fetch_add_lookup l i v l' c :
  fetch_add l i v = Some l' →
  l' !! c = if decide (c = i) then (λ x, wrap (x + v)) <$> l !! i else l !! c.
Proof.
  unfold fetch_add. destruct (l !! i) as [x|] eqn:Hx; simpl; [|done].
  intros [= <-]. destruct (decide (c = i)) as [->|Hne].
  - simpl. apply list_lookup_insert_eq.
    by apply lookup_lt_Some in Hx.
  - by apply list_lookup_insert_ne.
Qed.

(** The loop of [Commit] adds the thread's bank slot by slot. *)
Lemma Commit_loop tcs threadid tc g :
  tcs !! threadid = Some tc →
  CounterSet_wf NCOUNTERS tc → CounterSet_wf NCOUNTERS g →
  for_loop (Commit_body tcs threadid) (ascending NCOUNTERS) g
  = Some (add_sets g tc).
Proof.
  intros Htc (Htr & Htw & _) (Hgr & Hgw & _). unfold ascending.
  set (P := λ (i : nat) (g' : CounterSet),
    (∀ c, read_counters g' !! c
          = if decide (c < i)%nat
            then add_counters (read_counters g) (read_counters tc) !! c
            else read_counters g !! c)
    ∧ (∀ c, write_counters g' !! c
          = if decide (c < i)%nat
            then add_counters (write_counters g) (write_counters tc) !! c
            else write_counters g !! c)).
  destruct (for_loop_seq_inv P (Commit_body tcs threadid) 0 NCOUNTERS g)
    as (g' & Hg' & Hr & Hw).
  - split; intros c; by rewrite decide_False by lia.
  - intros i x [_ Hi] [Hxr Hxw]. simpl in Hi. unfold Commit_body.
    rewrite Htc. simpl.
    destruct (lookup_lt_is_Some_2 (read_counters tc) i) as [tr Htri]; [lia|].
    destruct (lookup_lt_is_Some_2 (write_counters tc) i) as [tw Htwi]; [lia|].
    destruct (lookup_lt_is_Some_2 (read_counters g) i) as [gr Hgri]; [lia|].
    destruct (lookup_lt_is_Some_2 (write_counters g) i) as [gw Hgwi]; [lia|].
    rewrite Htri. simpl.
    destruct (fetch_add (read_counters x) i tr) as [r|] eqn:Hfr; simpl; cycle 1.
    { unfold fetch_add in Hfr. rewrite Hxr, decide_False, Hgri in Hfr by lia.
      done. }
    rewrite Htwi. simpl.
    destruct (fetch_add (write_counters x) i tw) as [w|] eqn:Hfw; simpl; cycle 1.
    { unfold fetch_add in Hfw. rewrite Hxw, decide_False, Hgwi in Hfw by lia.
      done. }
    eexists. split; [done|]. split; simpl; intros c.
    + rewrite (fetch_add_lookup _ _ _ _ c Hfr), lookup_add_counters.
      destruct (decide (c = i)) as [->|Hne].
      * rewrite Hxr, decide_False, decide_True, Hgri, Htri by lia. done.
      * rewrite Hxr, lookup_add_counters. repeat case_decide; done || lia.
    + rewrite (fetch_add_lookup _ _ _ _ c Hfw), lookup_add_counters.
      destruct (decide (c = i)) as [->|Hne].
      * rewrite Hxw, decide_False, decide_True, Hgwi, Htwi by lia. done.
      * rewrite Hxw, lookup_add_counters. repeat case_decide; done || lia.
  - rewrite Hg'. f_equal. simpl in Hr, Hw.
    destruct g' as [r w], g as [gr gw], tc as [tr tw].
    unfold add_sets in *. simpl in *. f_equal; apply list_eq; intros c.
    + rewrite Hr. case_decide; [done|].
      rewrite lookup_add_counters, (lookup_ge_None_2 gr) by lia. done.
    + rewrite Hw. case_decide; [done|].
      rewrite lookup_add_counters, (lookup_ge_None_2 gw) by lia. done.
Qed.

Lemma add_sets_wf g t :
  CounterSet_wf NCOUNTERS g → CounterSet_wf NCOUNTERS t →
  CounterSet_wf NCOUNTERS (add_sets g t).
Proof.
  intros (Hgr & Hgw & _) (Htr & Htw & _).
  repeat split; simpl; try (rewrite length_add_counters; congruence);
    apply Forall_add_counters.
Qed.

Lemma Commit_enabled max_threads st threadid tc :
  Adapter_wf NCOUNTERS max_threads st → Enabled st = true →
  thread_counters st !! threadid = Some tc →
  Commit NCOUNTERS st threadid
  = Some (set_global_counters (add_sets (global_counters st) tc) st).
Proof.
  intros (Hg & Hlen & Hall) He Htc. unfold Commit. rewrite He.
  rewrite (Commit_loop _ _ tc); [done | done | | done].
  rewrite Forall_lookup in Hall. eauto.
Qed.

Lemma Commit_disabled st threadid :
  Enabled st = false → Commit NCOUNTERS st threadid = Some st.
Proof. intros He. unfold Commit. by rewrite He. Qed.

End CommitProps.

(** ** Well-formedness is preserved *)

Section Invariants.

Context (NCOUNTERS MAX_THREADS : nat).

Lemma zero_set_wf n : CounterSet_wf n (zero_set n).
Proof.
  repeat split; simpl; try apply length_replicate;
    apply Forall_replicate; by vm_compute.
Qed.

Lemma Reset_zero_set n cs : CounterSet_wf n cs → Reset cs = zero_set n.
Proof.
  intros (Hr & Hw & _). unfold Reset, zero_set.
  f_equal; apply list_eq; intros i; rewrite list_lookup_fmap.
  - destruct (decide (i < n)%nat).
    + destruct (lookup_lt_is_Some_2 (read_counters cs) i) as [x ->]; [lia|].
      by rewrite lookup_replicate_2.
    + rewrite lookup_ge_None_2 by lia. symmetry.
      apply lookup_replicate_None. lia.
  - destruct (decide (i < n)%nat).
    + destruct (lookup_lt_is_Some_2 (write_counters cs) i) as [x ->]; [lia|].
      by rewrite lookup_replicate_2.
    + rewrite lookup_ge_None_2 by lia. symmetry.
      apply lookup_replicate_None. lia.
Qed.

Lemma INITIALIZE_ADAPTER_wf enabled :
  Adapter_wf NCOUNTERS MAX_THREADS
    (INITIALIZE_ADAPTER NCOUNTERS MAX_THREADS enabled).
Proof.
  split; [apply zero_set_wf|]. simpl. split; [apply length_replicate|].
  apply Forall_replicate, zero_set_wf.
Qed.

Lemma wf_thread_lookup st t :
  Adapter_wf NCOUNTERS MAX_THREADS st → (t < MAX_THREADS)%nat →
  ∃ cs, thread_counters st !! t = Some cs ∧ CounterSet_wf NCOUNTERS cs.
Proof.
  intros (_ & Hlen & Hall) Ht.
  destruct (lookup_lt_is_Some_2 (thread_counters st) t) as [cs Hcs]; [lia|].
  exists cs. split; [done|]. rewrite Forall_lookup in Hall. eauto.
Qed.

Lemma set_thread_wf st t cs :
  Adapter_wf NCOUNTERS MAX_THREADS st → CounterSet_wf NCOUNTERS cs →
  Adapter_wf NCOUNTERS MAX_THREADS
    (set_thread_counters (<[t := cs]> (thread_counters st)) st).
Proof.
  intros (Hg & Hlen & Hall) Hcs. split; [done|]. simpl.
  split; [by rewrite length_insert|]. by apply Forall_insert.
Qed.

Lemma ResetGlobal_Enabled st : Enabled (ResetGlobal st) = Enabled st.
Proof. unfold ResetGlobal. by destruct (Enabled st) eqn:He. Qed.

Lemma ResetGlobal_current_split st :
  current_split (ResetGlobal st) = current_split st.
Proof. unfold ResetGlobal. by destruct (Enabled st). Qed.

Lemma ResetGlobal_global_counters st :
  global_counters (ResetGlobal st)
  = if Enabled st then Reset (global_counters st) else global_counters st.
Proof. unfold ResetGlobal. by destruct (Enabled st). Qed.

Lemma ResetGlobal_thread_counters st :
  thread_counters (ResetGlobal st) = thread_counters st.
Proof. unfold ResetGlobal. by destruct (Enabled st). Qed.

Lemma ResetGlobal_wf st :
  Adapter_wf NCOUNTERS MAX_THREADS st →
  Adapter_wf NCOUNTERS MAX_THREADS (ResetGlobal st).
Proof.
  intros (Hg & Hlen & Hall). unfold ResetGlobal.
  destruct (Enabled st); [|done].
  split; [|done]. simpl. rewrite (Reset_zero_set NCOUNTERS) by done.
  apply zero_set_wf.
Qed.

Lemma ResetGlobal_reads_zero st :
  Adapter_wf NCOUNTERS MAX_THREADS st → reads_zero NCOUNTERS (ResetGlobal st).
Proof.
  intros (Hg & _) i Hi. unfold ResetGlobal.
  destruct (Enabled st) eqn:He.
  - rewrite (Reset_zero_set NCOUNTERS) by done.
    unfold GetRead, GetWrite. simpl. rewrite He.
    by rewrite lookup_replicate_2.
  - unfold GetRead, GetWrite. by rewrite He.
Qed.

Lemma ComputeSplitIndex_ext st st' :
  Enabled st' = Enabled st → global_counters st' = global_counters st →
  ComputeSplitIndex NCOUNTERS st' = ComputeSplitIndex NCOUNTERS st.
Proof.
  intros He Hg. unfold ComputeSplitIndex, take_snapshot.
  replace (snapshot_body st') with (snapshot_body st); [done|].
  unfold snapshot_body, GetRead, GetWrite. by rewrite He, Hg.
Qed.

(** [RecomputeSplit] is compute, reset, publish, compare. *)
Lemma RecomputeSplit_unfold st k :
  ComputeSplitIndex NCOUNTERS st = Some k →
  RecomputeSplit NCOUNTERS st
  = Some (bool_decide (k ≠ current_split st),
          set_current_split k (ResetGlobal st)).
Proof.
  intros Hk. unfold RecomputeSplit. rewrite Hk. simpl.
  by rewrite ResetGlobal_current_split.
Qed.

Lemma exec_wf st c :
  (1 ≤ NCOUNTERS)%nat →
  Adapter_wf NCOUNTERS MAX_THREADS st → split_ok NCOUNTERS st →
  call_ok NCOUNTERS MAX_THREADS c →
  ∃ st', exec NCOUNTERS st c = Some st'
         ∧ Adapter_wf NCOUNTERS MAX_THREADS st' ∧ split_ok NCOUNTERS st'
         ∧ Enabled st' = Enabled st.
Proof.
  intros Hn Hwf Hsp Hc. destruct c as [t i n|t i n|t| | |t]; simpl in *.
  - destruct Hc as [Ht Hi]. unfold CountRead. rewrite decide_True by done.
    destruct (Enabled st) eqn:He; [|by eauto].
    destruct (wf_thread_lookup st t) as (cs & -> & Hcs); [done..|]. simpl.
    pose proof Hcs as (Hr & Hw & Hrr & Hwr).
    destruct (lookup_lt_is_Some_2 (read_counters cs) i) as [x ->]; [lia|].
    simpl. eexists. split; [done|]. split; [|done].
    apply set_thread_wf; [done|].
    repeat split; simpl; try done; [by rewrite length_insert|].
    apply Forall_insert; [done | apply wrap_is_counter].
  - destruct Hc as [Ht Hi]. unfold CountWrite. rewrite decide_True by done.
    destruct (Enabled st) eqn:He; [|by eauto].
    destruct (wf_thread_lookup st t) as (cs & -> & Hcs); [done..|]. simpl.
    pose proof Hcs as (Hr & Hw & Hrr & Hwr).
    destruct (lookup_lt_is_Some_2 (write_counters cs) i) as [x ->]; [lia|].
    simpl. eexists. split; [done|]. split; [|done].
    apply set_thread_wf; [done|].
    repeat split; simpl; try done; [by rewrite length_insert|].
    apply Forall_insert; [done | apply wrap_is_counter].
  - destruct (Enabled st) eqn:He.
    + destruct (wf_thread_lookup st t) as (cs & Hcs & Hcswf); [done..|].
      rewrite (Commit_enabled NCOUNTERS MAX_THREADS st t cs) by done.
      eexists. split; [done|]. split; [|done].
      destruct Hwf as (Hg & Hlen & Hall). split; [|done]. simpl.
      by apply add_sets_wf.
    + rewrite Commit_disabled by done. eauto.
  - destruct (ComputeSplitIndex_range NCOUNTERS st) as (k & Hk & Hrange);
      [by eapply wf_readable | done |].
    rewrite (RecomputeSplit_unfold st k Hk). simpl.
    eexists. split; [done|].
    pose proof (ResetGlobal_wf st Hwf) as Hwf'.
    split_and!.
    + exact Hwf'.
    + unfold split_ok. simpl. lia.
    + simpl. apply ResetGlobal_Enabled.
  - eexists. split; [done|]. split; [by apply ResetGlobal_wf|].
    unfold split_ok. by rewrite ResetGlobal_current_split, ResetGlobal_Enabled.
  - unfold ResetThread. destruct (Enabled st) eqn:He; [|by eauto].
    destruct (wf_thread_lookup st t) as (cs & -> & Hcs); [done..|]. simpl.
    eexists. split; [done|]. split; [|done].
    apply set_thread_wf; [done|].
    rewrite (Reset_zero_set NCOUNTERS) by done. apply zero_set_wf.
Qed.

Lemma run_wf st cs :
  (1 ≤ NCOUNTERS)%nat →
  Adapter_wf NCOUNTERS MAX_THREADS st → split_ok NCOUNTERS st →
  Forall (call_ok NCOUNTERS MAX_THREADS) cs →
  ∃ st', run NCOUNTERS st cs = Some st'
         ∧ Adapter_wf NCOUNTERS MAX_THREADS st' ∧ split_ok NCOUNTERS st'
         ∧ Enabled st' = Enabled st.
Proof.
  intros Hn. revert st. induction cs as [|c cs IH]; intros st Hwf Hsp Hcs.
  - by exists st.
  - apply Forall_cons in Hcs as [Hc Hcs]. simpl.
    destruct (exec_wf st c) as (st1 & -> & Hwf1 & Hsp1 & He1); [done..|].
    simpl. destruct (IH st1) as (st' & Hrun & ? & ? & He'); [done..|].
    exists st'. split_and!; [done.. | congruence].
Qed.

Lemma run_app st cs1 cs2 :
  run NCOUNTERS st (cs1 ++ cs2)
  = run NCOUNTERS st cs1 ≫= λ st', run NCOUNTERS st' cs2.
Proof.
  revert st. induction cs1 as [|c cs1 IH]; intros st; simpl; [done|].
  destruct (exec NCOUNTERS st c); simpl; [apply IH | done].
Qed.

(** Only [RecomputeSplit] writes the published split. *)
Lemma exec_current_split st c st' :
  c ≠ CallRecomputeSplit → exec NCOUNTERS st c = Some st' →
  current_split st' = current_split st.
Proof.
  intros Hc. destruct c as [t i n|t i n|t| | |t]; simpl; try done.
  - unfold CountRead. case_decide; [|done]. destruct (Enabled st); [|congruence].
    destruct (thread_counters st !! t) as [cs|]; simpl; [|done].
    destruct (read_counters cs !! i); simpl; [|done]. by intros [= <-].
  - unfold CountWrite. case_decide; [|done]. destruct (Enabled st); [|congruence].
    destruct (thread_counters st !! t) as [cs|]; simpl; [|done].
    destruct (write_counters cs !! i); simpl; [|done]. by intros [= <-].
  - unfold Commit. destruct (Enabled st); [|congruence].
    destruct (for_loop _ _ _); simpl; [|done]. by intros [= <-].
  - intros [= <-]. apply ResetGlobal_current_split.
  - unfold ResetThread. destruct (Enabled st); [|congruence].
    destruct (thread_counters st !! t) as [cs|]; simpl; [|done].
    by intros [= <-].
Qed.

Lemma run_current_split st cs st' :
  Forall (λ c, c ≠ CallRecomputeSplit) cs → run NCOUNTERS st cs = Some st' →
  current_split st' = current_split st.
Proof.
  intros Hcs. revert st. induction Hcs as [|c cs Hc Hcs IH]; intros st; simpl.
  - congruence.
  - destruct (exec NCOUNTERS st c) as [st1|] eqn:Hex; simpl; [|done].
    intros Hrun. rewrite (IH st1 Hrun). by apply (exec_current_split st c).
Qed.

End Invariants.

(** ** Counting *)

Section Counting.

Context (NCOUNTERS MAX_THREADS : nat).

Lemma CountRead_effect st t i n :
  Adapter_wf NCOUNTERS MAX_THREADS st → Enabled st = true →
  (t < MAX_THREADS)%nat → (i < NCOUNTERS)%nat →
  ∃ st' x,
    CountRead NCOUNTERS st t i n = Some st'
    ∧ Enabled st' = true
    ∧ global_counters st' = global_counters st
    ∧ TGetRead st t i = Some x
    ∧ (∀ t' c, TGetRead st' t' c
               = if decide (t' = t ∧ c = i) then Some (wrap (x + n))
                 else TGetRead st t' c)
    ∧ (∀ t' c, TGetWrite st' t' c = TGetWrite st t' c).
Proof.
  intros Hwf He Ht Hi.
  destruct (wf_thread_lookup NCOUNTERS MAX_THREADS st t Hwf Ht)
    as (cs & Hcs & (Hr & Hw & _)).
  destruct (lookup_lt_is_Some_2 (read_counters cs) i) as [x Hx]; [lia|].
  unfold CountRead. rewrite decide_True, He, Hcs by done. simpl.
  rewrite Hx. simpl. eexists _, x. split_and!; try done.
  - unfold TGetRead. by rewrite He, Hcs.
  - intros t' c. unfold TGetRead. simpl. rewrite He.
    destruct (decide (t' = t)) as [->|Hne].
    + rewrite list_lookup_insert_eq, Hcs
        by (by apply lookup_lt_Some in Hcs).
      simpl. destruct (decide (c = i)) as [->|Hne].
      * rewrite decide_True by done. apply list_lookup_insert_eq.
        by apply lookup_lt_Some in Hx.
      * rewrite decide_False by tauto. by apply list_lookup_insert_ne.
    + rewrite decide_False by tauto. by rewrite list_lookup_insert_ne.
  - intros t' c. unfold TGetWrite. simpl. rewrite He.
    destruct (decide (t' = t)) as [->|Hne].
    + by rewrite list_lookup_insert_eq, Hcs
        by (by apply lookup_lt_Some in Hcs).
    + by rewrite list_lookup_insert_ne.
Qed.

Lemma CountWrite_effect st t i n :
  Adapter_wf NCOUNTERS MAX_THREADS st → Enabled st = true →
  (t < MAX_THREADS)%nat → (i < NCOUNTERS)%nat →
  ∃ st' x,
    CountWrite NCOUNTERS st t i n = Some st'
    ∧ Enabled st' = true
    ∧ global_counters st' = global_counters st
    ∧ TGetWrite st t i = Some x
    ∧ (∀ t' c, TGetWrite st' t' c
               = if decide (t' = t ∧ c = i) then Some (wrap (x + n))
                 else TGetWrite st t' c)
    ∧ (∀ t' c, TGetRead st' t' c = TGetRead st t' c).
Proof.
  intros Hwf He Ht Hi.
  destruct (wf_thread_lookup NCOUNTERS MAX_THREADS st t Hwf Ht)
    as (cs & Hcs & (Hr & Hw & _)).
  destruct (lookup_lt_is_Some_2 (write_counters cs) i) as [x Hx]; [lia|].
  unfold CountWrite. rewrite decide_True, He, Hcs by done. simpl.
  rewrite Hx. simpl. eexists _, x. split_and!; try done.
  - unfold TGetWrite. by rewrite He, Hcs.
  - intros t' c. unfold TGetWrite. simpl. rewrite He.
    destruct (decide (t' = t)) as [->|Hne].
    + rewrite list_lookup_insert_eq, Hcs
        by (by apply lookup_lt_Some in Hcs).
      simpl. destruct (decide (c = i)) as [->|Hne].
      * rewrite decide_True by done. apply list_lookup_insert_eq.
        by apply lookup_lt_Some in Hx.
      * rewrite decide_False by tauto. by apply list_lookup_insert_ne.
    + rewrite decide_False by tauto. by rewrite list_lookup_insert_ne.
  - intros t' c. unfold TGetRead. simpl. rewrite He.
    destruct (decide (t' = t)) as [->|Hne].
    + by rewrite list_lookup_insert_eq, Hcs
        by (by apply lookup_lt_Some in Hcs).
    + by rewrite list_lookup_insert_ne.
Qed.

(** Counting accumulates the recorded amounts in the local bank of the
    calling thread, in [counter_type] arithmetic, and leaves the global
    bank alone. *)
Lemma run_counts_records st cs :
  (1 ≤ NCOUNTERS)%nat →
  Adapter_wf NCOUNTERS MAX_THREADS st → split_ok NCOUNTERS st →
  Enabled st = true →
  Forall is_count cs → Forall (call_ok NCOUNTERS MAX_THREADS) cs →
  ∃ st', run NCOUNTERS st cs = Some st'
    ∧ global_counters st' = global_counters st
    ∧ ∀ t c r w,
        TGetRead st t c = Some r → TGetWrite st t c = Some w →
        TGetRead st' t c = Some (wrap (r + recorded_reads t c cs))
        ∧ TGetWrite st' t c = Some (wrap (w + recorded_writes t c cs)).
Proof.
  intros Hn Hwf Hsp He Hcount Hok. revert st Hwf Hsp He Hok.
  induction Hcount as [|c cs Hc Hcount IH]; intros st Hwf Hsp He Hok.
  - exists st. split_and!; [done..|]. intros t c r w Hr Hw. simpl.
    rewrite !Z.add_0_r, !wrap_small; [done | |].
    + unfold TGetWrite in Hw. rewrite He in Hw.
      destruct (thread_counters st !! t) as [tc|] eqn:Htc; [|done].
      destruct Hwf as (_ & _ & Hall).
      eapply Forall_lookup_1 in Hall as (_ & _ & _ & Hwr); [|done].
      by eapply Forall_lookup_1 in Hwr.
    + unfold TGetRead in Hr. rewrite He in Hr.
      destruct (thread_counters st !! t) as [tc|] eqn:Htc; [|done].
      destruct Hwf as (_ & _ & Hall).
      eapply Forall_lookup_1 in Hall as (_ & _ & Hrr & _); [|done].
      by eapply Forall_lookup_1 in Hrr.
  - apply Forall_cons in Hok as [Hcok Hok].
    destruct (exec_wf NCOUNTERS MAX_THREADS st c Hn Hwf Hsp Hcok)
      as (st1 & Hex & Hwf1 & Hsp1 & He1).
    rewrite He in He1.
    destruct (IH st1 Hwf1 Hsp1 He1 Hok) as (st' & Hrun & Hg & Hloc).
    exists st'. simpl. rewrite Hex. simpl. split; [done|].
    destruct c as [t0 i n|t0 i n| | | |]; try done; simpl in Hcok, Hex.
    + destruct (CountRead_effect st t0 i n Hwf He)
        as (st1' & x & Hex' & _ & Hg1 & Hx & Hrd & Hwr); [lia..|].
      assert (st1' = st1) as -> by congruence.
      split; [congruence|]. intros t c r w Hr Hw.
      cbn [recorded_reads recorded_writes].
      destruct (Hloc t c (if decide (t = t0 ∧ c = i) then wrap (x + n) else r) w)
        as [Hr' Hw'].
      { rewrite Hrd. by case_decide. }
      { by rewrite Hwr. }
      split; [|done]. rewrite Hr'. f_equal.
      destruct (decide (t = t0 ∧ c = i)) as [[-> ->]|Hne].
      * assert (r = x) as -> by congruence.
        by rewrite wrap_add_l, Z.add_assoc.
      * by rewrite Z.add_0_l.
    + destruct (CountWrite_effect st t0 i n Hwf He)
        as (st1' & x & Hex' & _ & Hg1 & Hx & Hwr & Hrd); [lia..|].
      assert (st1' = st1) as -> by congruence.
      split; [congruence|]. intros t c r w Hr Hw.
      cbn [recorded_reads recorded_writes].
      destruct (Hloc t c r (if decide (t = t0 ∧ c = i) then wrap (x + n) else w))
        as [Hr' Hw'].
      { by rewrite Hrd. }
      { rewrite Hwr. by case_decide. }
      split; [done|]. rewrite Hw'. f_equal.
      destruct (decide (t = t0 ∧ c = i)) as [[-> ->]|Hne].
      * assert (w = x) as -> by congruence.
        by rewrite wrap_add_l, Z.add_assoc.
      * by rewrite Z.add_0_l.
Qed.

End Counting.

(** ** Commits of several threads *)

Section CommitMany.

Context (NCOUNTERS MAX_THREADS : nat).

Lemma Commit_effect st t :
  Adapter_wf NCOUNTERS MAX_THREADS st → Enabled st = true →
  (t < MAX_THREADS)%nat →
  ∃ st', Commit NCOUNTERS st t = Some st'
    ∧ Adapter_wf NCOUNTERS MAX_THREADS st'
    ∧ Enabled st' = true
    ∧ current_split st' = current_split st
    ∧ thread_counters st' = thread_counters st
    ∧ ∀ c, (c < NCOUNTERS)%nat →
        ∃ gr gw tr tw,
          GetRead st c = Some gr ∧ GetWrite st c = Some gw
          ∧ TGetRead st t c = Some tr ∧ TGetWrite st t c = Some tw
          ∧ GetRead st' c = Some (wrap (gr + tr))
          ∧ GetWrite st' c = Some (wrap (gw + tw)).
Proof.
  intros Hwf He Ht.
  destruct (wf_thread_lookup NCOUNTERS MAX_THREADS st t) as (tc & Htc & Htcwf);
    [done..|].
  rewrite (Commit_enabled NCOUNTERS MAX_THREADS st t tc) by done.
  eexists. split; [done|].
  pose proof Hwf as (Hg & Hlen & Hall).
  split_and!; try done.
  - split; [|done]. simpl. by apply add_sets_wf.
  - intros c Hc. destruct Hg as (Hgr & Hgw & _), Htcwf as (Htr & Htw & _).
    destruct (lookup_lt_is_Some_2 (read_counters (global_counters st)) c)
      as [gr Hgrc]; [lia|].
    destruct (lookup_lt_is_Some_2 (write_counters (global_counters st)) c)
      as [gw Hgwc]; [lia|].
    destruct (lookup_lt_is_Some_2 (read_counters tc) c) as [tr Htrc]; [lia|].
    destruct (lookup_lt_is_Some_2 (write_counters tc) c) as [tw Htwc]; [lia|].
    exists gr, gw, tr, tw. unfold GetRead, GetWrite, TGetRead, TGetWrite.
    simpl. rewrite He, Htc. simpl.
    rewrite !lookup_add_counters, Hgrc, Hgwc, Htrc, Htwc. done.
Qed.

(** Partial-correctness form, one column at a time. *)
Lemma run_commits_column st T st' c (r w : nat → Z) gr gw :
  Adapter_wf NCOUNTERS MAX_THREADS st → Enabled st = true →
  Forall (λ t, (t < MAX_THREADS)%nat) T → (c < NCOUNTERS)%nat →
  (∀ t, t ∈ T → TGetRead st t c = Some (r t) ∧ TGetWrite st t c = Some (w t)) →
  GetRead st c = Some gr → GetWrite st c = Some gw →
  run NCOUNTERS st (CallCommit <$> T) = Some st' →
  GetRead st' c = Some (wrap (gr + sum_over r T))
  ∧ GetWrite st' c = Some (wrap (gw + sum_over w T)).
Proof.
  intros Hwf He HT Hc. revert st gr gw Hwf He.
  induction T as [|t T IH]; intros st gr gw Hwf He Hloc Hgr Hgw Hrun.
  - simpl in Hrun. injection Hrun as <-. simpl. rewrite !Z.add_0_r.
    destruct Hwf as ((_ & _ & Hrr & Hwr) & _).
    unfold GetRead, GetWrite in *. rewrite He in *.
    rewrite !wrap_small; [done | |].
    + eapply Forall_lookup_1 in Hwr; eauto.
    + eapply Forall_lookup_1 in Hrr; eauto.
  - apply Forall_cons in HT as [Ht HT]. simpl in Hrun.
    destruct (Commit_effect st t Hwf He Ht)
      as (st1 & Hst1 & Hwf1 & He1 & _ & Htc1 & Hcols).
    rewrite Hst1 in Hrun. simpl in Hrun.
    destruct (Hcols c Hc) as (gr' & gw' & tr & tw & Hgr' & Hgw' & Htr & Htw
                              & Hgr1 & Hgw1).
    destruct (Hloc t) as [Hrt Hwt]; [left|].
    assert (gr' = gr) as -> by congruence.
    assert (gw' = gw) as -> by congruence.
    assert (tr = r t) as -> by congruence.
    assert (tw = w t) as -> by congruence.
    assert (Hloc1 : ∀ t', t' ∈ T →
      TGetRead st1 t' c = Some (r t') ∧ TGetWrite st1 t' c = Some (w t')).
    { intros t' Ht'. unfold TGetRead, TGetWrite. rewrite He1, Htc1.
      destruct (Hloc t') as [Hrt' Hwt']; [by right|].
      unfold TGetRead, TGetWrite in Hrt', Hwt'. by rewrite He in Hrt', Hwt'. }
    destruct (IH HT st1 _ _ Hwf1 He1 Hloc1 Hgr1 Hgw1 Hrun) as [Hr' Hw'].
    simpl. rewrite Hr', Hw', !wrap_add_l, !Z.add_assoc. done.
Qed.

End CommitMany.

(** ** Schedules of atomic additions *)

Section Schedules.

Context (NCOUNTERS MAX_THREADS : nat).





End Schedules.

Section CommitSchedules.

Context (NCOUNTERS MAX_THREADS : nat).




End CommitSchedules.

(** ** Every thread commits once *)

Section CommitOnce.

Context (NCOUNTERS MAX_THREADS : nat).

Lemma run_commits_is_Some st T :
  Adapter_wf NCOUNTERS MAX_THREADS st → Enabled st = true →
  Forall (λ t, (t < MAX_THREADS)%nat) T →
  ∃ st', run NCOUNTERS st (CallCommit <$> T) = Some st'.
Proof.
  intros Hwf He HT. revert st Hwf He.
  induction HT as [|t T Ht HT IH]; intros st Hwf He; [by eexists|].
  destruct (Commit_effect NCOUNTERS MAX_THREADS st t Hwf He Ht)
    as (st1 & Hst1 & Hwf1 & He1 & _).
  simpl. rewrite Hst1. simpl. by apply IH.
Qed.

Lemma sum_over_nonneg (f : nat → Z) T :
  (∀ t, t ∈ T → 0 ≤ f t) → 0 ≤ sum_over f T.
Proof.
  induction T as [|t T IH]; intros Hf; simpl; [done|].
  assert (0 ≤ f t) by (apply Hf; left).
  assert (0 ≤ sum_over f T) by (apply IH; intros; apply Hf; by right).
  lia.
Qed.

Lemma sum_over_ext (f g : nat → Z) T :
  (∀ t, t ∈ T → f t = g t) → sum_over f T = sum_over g T.
Proof.
  induction T as [|t T IH]; intros Hfg; simpl; [done|].
  rewrite (Hfg t) by left. rewrite IH; [done|]. intros; apply Hfg; by right.
Qed.

Lemma TGet_is_counter st t c r w :
  Adapter_wf NCOUNTERS MAX_THREADS st → Enabled st = true →
  TGetRead st t c = Some r → TGetWrite st t c = Some w →
  is_counter r ∧ is_counter w.
Proof.
  intros (_ & _ & Hall) He Hr Hw.
  unfold TGetRead, TGetWrite in Hr, Hw. rewrite He in Hr, Hw.
  destruct (thread_counters st !! t) as [tc|] eqn:Htc; simpl in *; [|done].
  eapply Forall_lookup_1 in Hall as (_ & _ & Hrr & Hwr); [|done].
  split.
  - by apply (Forall_lookup_1 _ _ _ _ Hrr Hr).
  - by apply (Forall_lookup_1 _ _ _ _ Hwr Hw).
Qed.

(** From a global bank at zero, committing the threads of [T] once each
    leaves the sums of their local counts in the global bank. *)
Lemma commits_sum st T st' (r w : nat → nat → Z) :
  Adapter_wf NCOUNTERS MAX_THREADS st → Enabled st = true →
  reads_zero NCOUNTERS st →
  Forall (λ t, (t < MAX_THREADS)%nat) T →
  (∀ t c, t ∈ T → (c < NCOUNTERS)%nat →
     TGetRead st t c = Some (r t c) ∧ TGetWrite st t c = Some (w t c)) →
  (∀ c, (c < NCOUNTERS)%nat →
     sum_over (λ t, r t c) T < 2 ^ counter_bits
     ∧ sum_over (λ t, w t c) T < 2 ^ counter_bits) →
  run NCOUNTERS st (CallCommit <$> T) = Some st' →
  ∀ c, (c < NCOUNTERS)%nat →
    GetRead st' c = Some (sum_over (λ t, r t c) T)
    ∧ GetWrite st' c = Some (sum_over (λ t, w t c) T).
Proof.
  intros Hwf He Hz HT Hloc Hfit Hrun c Hc.
  destruct (Hz c Hc) as [Hgr Hgw].
  destruct (run_commits_column NCOUNTERS MAX_THREADS st T st' c
              (λ t, r t c) (λ t, w t c) 0 0) as [Hr Hw]; try done.
  { intros t Ht. by apply Hloc. }
  assert (Hrange : ∀ t, t ∈ T → 0 ≤ r t c ∧ 0 ≤ w t c).
  { intros t Ht. destruct (Hloc t c Ht Hc) as [Hrt Hwt].
    destruct (TGet_is_counter st t c _ _ Hwf He Hrt Hwt) as [[? _] [? _]].
    done. }
  destruct (Hfit c Hc) as [Hfr Hfw].
  rewrite Hr, Hw, !Z.add_0_l, !wrap_small; [done | |].
  - split; [apply sum_over_nonneg; intros; by apply Hrange | done].
  - split; [apply sum_over_nonneg; intros; by apply Hrange | done].
Qed.

(** End to end: from the initial state the workers count in any
    interleaving, then the threads of [T] commit once each in any order. *)
Lemma count_then_commit_sums counts T :
  (1 ≤ NCOUNTERS)%nat →
  Forall is_count counts → Forall (call_ok NCOUNTERS MAX_THREADS) counts →
  Forall (λ t, (t < MAX_THREADS)%nat) T →
  (∀ t c, t ∈ T → (c < NCOUNTERS)%nat →
     0 ≤ recorded_reads t c counts ∧ 0 ≤ recorded_writes t c counts) →
  (∀ c, (c < NCOUNTERS)%nat →
     sum_over (λ t, recorded_reads t c counts) T < 2 ^ counter_bits
     ∧ sum_over (λ t, recorded_writes t c counts) T < 2 ^ counter_bits) →
  ∃ st', run NCOUNTERS (INITIALIZE_ADAPTER NCOUNTERS MAX_THREADS true)
           (counts ++ (CallCommit <$> T)) = Some st'
    ∧ ∀ c, (c < NCOUNTERS)%nat →
        GetRead st' c = Some (sum_over (λ t, recorded_reads t c counts) T)
        ∧ GetWrite st' c = Some (sum_over (λ t, recorded_writes t c counts) T).
Proof.
  intros Hn Hcount Hok HT Hnonneg Hfit.
  set (st0 := INITIALIZE_ADAPTER NCOUNTERS MAX_THREADS true).
  assert (Hwf0 : Adapter_wf NCOUNTERS MAX_THREADS st0)
    by apply INITIALIZE_ADAPTER_wf.
  assert (Hsp0 : split_ok NCOUNTERS st0) by (unfold split_ok; simpl; lia).
  destruct (run_counts_records NCOUNTERS MAX_THREADS st0 counts)
    as (st & Hrun & Hg & Hloc); [done..|].
  destruct (run_wf NCOUNTERS MAX_THREADS st0 counts)
    as (st_ & Hrun_ & Hwf & _ & He); [done..|].
  assert (st_ = st) as -> by congruence. simpl in He.
  destruct (run_commits_is_Some st T Hwf He HT) as [st' Hrun'].
  exists st'. split; [by rewrite run_app, Hrun|].
  assert (Hbank : ∀ t c, t ∈ T → (c < NCOUNTERS)%nat →
            TGetRead st t c = Some (recorded_reads t c counts)
            ∧ TGetWrite st t c = Some (recorded_writes t c counts)).
  { intros t c Ht Hc.
    assert (t < MAX_THREADS)%nat as Hlt
      by (rewrite Forall_forall in HT; by apply HT).
    destruct (Hloc t c 0 0) as [Hr Hw].
    - unfold TGetRead, st0. simpl.
      rewrite lookup_replicate_2 by done. simpl.
      by rewrite lookup_replicate_2.
    - unfold TGetWrite, st0. simpl.
      rewrite lookup_replicate_2 by done. simpl.
      by rewrite lookup_replicate_2.
    - rewrite Z.add_0_l in Hr, Hw.
      destruct (TGet_is_counter st t c _ _ Hwf He Hr Hw) as [Hcr Hcw].
      destruct (Hnonneg t c Ht Hc) as [Hnr Hnw].
      assert (Hle : ∀ (f : nat → Z), (∀ t', t' ∈ T → 0 ≤ f t') →
                f t ≤ sum_over f T).
      { intros f Hf. clear -Ht Hf. induction T as [|t' T IH]; simpl.
        - by apply elem_of_nil in Ht.
        - assert (0 ≤ f t') by (apply Hf; left).
          assert (0 ≤ sum_over f T)
            by (apply sum_over_nonneg; intros; apply Hf; by right).
          apply elem_of_cons in Ht as [->|Ht]; [lia|].
          assert (f t ≤ sum_over f T)
            by (apply IH; [done|]; intros; apply Hf; by right).
          lia. }
      destruct (Hfit c Hc) as [Hfr Hfw].
      rewrite Hr, Hw, !wrap_small; [done | |]; split; try done.
      + eapply Z.le_lt_trans; [|exact Hfw].
        apply (Hle (λ t', recorded_writes t' c counts)).
        intros t' Ht'. by apply Hnonneg.
      + eapply Z.le_lt_trans; [|exact Hfr].
        apply (Hle (λ t', recorded_reads t' c counts)).
        intros t' Ht'. by apply Hnonneg. }
  apply (commits_sum st T st' (λ t c, recorded_reads t c counts)
           (λ t c, recorded_writes t c counts)); try done.
  intros i Hi. unfold GetRead, GetWrite. rewrite He, Hg. simpl.
  by rewrite lookup_replicate_2.
Qed.

End CommitOnce.

(** * The claims *)

(** C1: for [COLCOUNT = 4], reads [10,10,10,10] and writes [0,0,40,40],
    feature enabled, [ComputeSplitIndex()] returns 2.  The skew pass ends
    on candidate 2 with read fraction 0.5 and write fraction 0.0; its diff
    0.5 exceeds the diffs 0.25, 0.25 and 0 of the candidates 3, 1 and 4. *)
Theorem ComputeSplitIndex_skewed_bank :
  ComputeSplitIndex 4 skewed_bank = Some 2%nat
  ∧ ∃ sn, take_snapshot 4 skewed_bank = Some sn
      ∧ skew_pass 4 sn
        = Some {| best_split := 2; best_read := 0.5; best_write := 0 |}
      ∧ diff sn 2 = Some 0.5%float
      ∧ diff sn 3 = Some 0.25%float
      ∧ diff sn 1 = Some 0.25%float
      ∧ diff sn 4 = Some 0%float.
Proof. split; [by vm_compute|]. eexists. split; [by vm_compute|]. by vm_compute. Qed.

(** C2: for [COLCOUNT = 4], reads and writes all [5,5,5,5], feature
    enabled, [ComputeSplitIndex()] returns 2: every skew diff is 0, the
    skew pass keeps [best = 4], and the balance pass selects candidate 2,
    whose left-group write fraction is exactly 0.5. *)
Theorem ComputeSplitIndex_uniform_bank :
  ComputeSplitIndex 4 uniform_bank = Some 2%nat
  ∧ ∃ sn, take_snapshot 4 uniform_bank = Some sn
      ∧ diff sn 1 = Some 0%float ∧ diff sn 2 = Some 0%float
      ∧ diff sn 3 = Some 0%float ∧ diff sn 4 = Some 0%float
      ∧ best_split <$> skew_pass 4 sn = Some 4%nat
      ∧ fraction (write_psum sn) (write_total sn) 2 = Some 0.5%float
      ∧ balance_pass 4 sn 4 = Some 2%nat.
Proof. split; [by vm_compute|]. eexists. split; [by vm_compute|]. by vm_compute. Qed.

(** C3: the skew pass starts from [best = COLCOUNT], scans the candidates
    [COLCOUNT - 1] down to [1], and replaces the best candidate by [s]
    exactly when [diff(s) > diff(best) * 1.05]: the loop of the code, with
    its cached [best_data], computes the scan [skew_spec] worded by the
    specification, and its cache holds the fractions of its result.  A
    candidate that ties with the best one, or stays within the margin,
    leaves it in place; so a candidate whose diff equals the diff of a
    larger candidate is never selected. *)
Theorem skew_pass_refines_spec NCOUNTERS (sn : Snapshot) :
  (1 ≤ NCOUNTERS)%nat → Snapshot_wf NCOUNTERS sn →
  ∃ b, skew_pass NCOUNTERS sn = Some b
       ∧ skew_spec NCOUNTERS sn = Some (best_split b)
       ∧ diff sn (best_split b)
         = Some (abs (best_write b - best_read b))%float
       ∧ (∀ s best d,
            diff sn s = Some d → diff sn best = Some d →
            skew_rule sn s best = Some best)
       ∧ (∀ s best ds db,
            diff sn s = Some ds → diff sn best = Some db →
            (db * 1.05 <? ds)%float = false →
            skew_rule sn s best = Some best)
       ∧ (∀ s1 s2,
            (1 ≤ s1)%nat → (s1 < s2 ≤ NCOUNTERS)%nat →
            diff sn s1 = diff sn s2 → best_split b ≠ s1).
Proof.
  intros Hn Hsn.
  destruct (skew_pass_scan NCOUNTERS sn Hsn Hn) as (b & Hb & (_ & Hr & Hw) & Hs).
  exists b. split_and!; [done.. | | | |].
  - unfold diff. by rewrite Hr, Hw.
  - intros s best d Hds Hdb. apply (skew_rule_tie sn s best d Hds).
    by apply blocked_self.
  - intros s best ds db Hds Hdb Hlt. apply (skew_rule_tie sn s best ds Hds).
    by exists db.
  - by apply (skew_spec_larger_wins NCOUNTERS sn).
Qed.

(** C8: right after initialisation, and as long as [RecomputeSplit] has
    not been called, the stored split is the sentinel 0 and
    [CurrentSplit()] returns [COLCOUNT]; in general a stored 0 reads as
    [COLCOUNT] and any other stored value reads as itself. *)
Theorem CurrentSplit_sentinel NCOUNTERS MAX_THREADS enabled cs
    (st st' : Adapter) k :
  Forall (λ c, c ≠ CallRecomputeSplit) cs →
  run NCOUNTERS (INITIALIZE_ADAPTER NCOUNTERS MAX_THREADS enabled) cs
  = Some st' →
  current_split (INITIALIZE_ADAPTER NCOUNTERS MAX_THREADS enabled) = 0%nat
  ∧ CurrentSplit NCOUNTERS (INITIALIZE_ADAPTER NCOUNTERS MAX_THREADS enabled)
    = NCOUNTERS
  ∧ current_split st' = 0%nat
  ∧ CurrentSplit NCOUNTERS st' = NCOUNTERS
  ∧ CurrentSplit NCOUNTERS (set_current_split 0 st) = NCOUNTERS
  ∧ CurrentSplit NCOUNTERS (set_current_split (S k) st) = S k.
Proof.
  intros Hcs Hrun.
  pose proof (run_current_split NCOUNTERS _ cs st' Hcs Hrun) as Hsp.
  simpl in Hsp. split_and!; try done.
  unfold CurrentSplit. by rewrite Hsp.
Qed.

(** C9: on every bank, all-zero ones included, [ComputeSplitIndex()]
    returns a value in [[1, COLCOUNT]]; hence in every state reached from
    the initial one [CurrentSplit()] lies in [[1, COLCOUNT]] too. *)
Theorem split_in_range NCOUNTERS MAX_THREADS (st : Adapter) enabled cs :
  (1 ≤ NCOUNTERS)%nat →
  Adapter_wf NCOUNTERS MAX_THREADS st →
  Forall (call_ok NCOUNTERS MAX_THREADS) cs →
  (∃ k, ComputeSplitIndex NCOUNTERS st = Some k ∧ (1 ≤ k ≤ NCOUNTERS)%nat)
  ∧ (∃ st', run NCOUNTERS (INITIALIZE_ADAPTER NCOUNTERS MAX_THREADS enabled) cs
            = Some st'
          ∧ (1 ≤ CurrentSplit NCOUNTERS st' ≤ NCOUNTERS)%nat).
Proof.
  intros Hn Hwf Hcs. split.
  - apply ComputeSplitIndex_range; [|done]. by eapply wf_readable.
  - destruct (run_wf NCOUNTERS MAX_THREADS
                (INITIALIZE_ADAPTER NCOUNTERS MAX_THREADS enabled) cs)
      as (st' & Hrun & _ & Hsp & _);
      [done | apply INITIALIZE_ADAPTER_wf | unfold split_ok; simpl; lia
      | done |].
    exists st'. split; [done|]. unfold CurrentSplit, split_ok in *.
    case_decide; lia.
Qed.

(** C10: the [changed] flag compares the new split with the raw stored
    value.  When the stored value is still the sentinel 0 and
    [ComputeSplitIndex()] returns [COLCOUNT], the call returns [true]
    although [CurrentSplit()] is [COLCOUNT] before and after it. *)
Theorem RecomputeSplit_changed_from_sentinel NCOUNTERS (st : Adapter) k :
  ComputeSplitIndex NCOUNTERS st = Some k →
  ∃ st', RecomputeSplit NCOUNTERS st
         = Some (bool_decide (k ≠ current_split st), st')
         ∧ current_split st' = k
         ∧ (current_split st = 0%nat → k = NCOUNTERS →
            RecomputeSplit NCOUNTERS st = Some (true, st')
            ∧ CurrentSplit NCOUNTERS st = NCOUNTERS
            ∧ CurrentSplit NCOUNTERS st' = NCOUNTERS).
Proof.
  intros Hk.
  rewrite (RecomputeSplit_unfold NCOUNTERS st k Hk).
  eexists. split_and!; [done..|]. intros H0 ->.
  assert (NCOUNTERS ≠ 0%nat) as Hn.
  { intros ->. by rewrite ComputeSplitIndex_no_columns in Hk. }
  split_and!.
  - f_equal. f_equal. rewrite H0. by apply bool_decide_eq_true.
  - unfold CurrentSplit. by rewrite decide_True.
  - unfold CurrentSplit. simpl. by rewrite decide_False.
Qed.

(** C7: with the enablement flag off, every sequence of calls runs to
    completion, leaves both banks untouched and every query at 0;
    [ComputeSplitIndex()] is a pure function of the state and
    [RecomputeSplit()] changes nothing but the published split. *)
Theorem disabled_is_noop NCOUNTERS (st : Adapter) cs :
  (1 ≤ NCOUNTERS)%nat → Enabled st = false →
  Forall (index_ok NCOUNTERS) cs →
  ∃ st', run NCOUNTERS st cs = Some st'
    ∧ Enabled st' = false
    ∧ global_counters st' = global_counters st
    ∧ thread_counters st' = thread_counters st
    ∧ (∀ t i, GetRead st' i = Some 0 ∧ GetWrite st' i = Some 0
              ∧ Get st' i = Some (0, 0)
              ∧ TGetRead st' t i = Some 0 ∧ TGetWrite st' t i = Some 0
              ∧ TGet st' t i = Some (0, 0))
    ∧ ComputeSplitIndex NCOUNTERS st' = Some NCOUNTERS
    ∧ RecomputeSplit NCOUNTERS st'
      = Some (bool_decide (NCOUNTERS ≠ current_split st'),
              set_current_split NCOUNTERS st').
Proof.
  intros Hn He Hcs.
  assert (Hzero : ∀ s, Enabled s = false →
            ComputeSplitIndex NCOUNTERS s = Some NCOUNTERS).
  { intros s Hs. apply ComputeSplitIndex_zero; [|done].
    intros i _. unfold GetRead, GetWrite. by rewrite Hs. }
  assert (Hrun : ∃ st', run NCOUNTERS st cs = Some st' ∧ Enabled st' = false
            ∧ global_counters st' = global_counters st
            ∧ thread_counters st' = thread_counters st).
  { revert st He. induction Hcs as [|c cs Hc Hcs IH]; intros st He.
    - by exists st.
    - assert (∃ st1, exec NCOUNTERS st c = Some st1 ∧ Enabled st1 = false
                ∧ global_counters st1 = global_counters st
                ∧ thread_counters st1 = thread_counters st)
        as (st1 & Hex & He1 & Hg1 & Ht1).
      { destruct c as [t i n|t i n|t| | |t]; simpl in *.
        - unfold CountRead. rewrite decide_True, He by done. eauto.
        - unfold CountWrite. rewrite decide_True, He by done. eauto.
        - rewrite Commit_disabled by done. eauto.
        - rewrite (RecomputeSplit_unfold NCOUNTERS st NCOUNTERS) by auto.
          simpl. unfold ResetGlobal. rewrite He. eauto.
        - unfold ResetGlobal. rewrite He. eauto.
        - unfold ResetThread. rewrite He. eauto. }
      simpl. rewrite Hex. simpl.
      destruct (IH st1 He1) as (st' & Hrun & He' & Hg' & Ht').
      exists st'. split_and!; congruence. }
  destruct Hrun as (st' & Hrun & He' & Hg' & Ht').
  exists st'. split_and!; try done.
  - intros t i. unfold Get, TGet, GetRead, GetWrite, TGetRead, TGetWrite.
    by rewrite He'.
  - auto.
  - rewrite (RecomputeSplit_unfold NCOUNTERS st' NCOUNTERS) by auto.
    unfold ResetGlobal. by rewrite He'.
Qed.

(** C6: [Commit()] leaves the thread-local bank as it is, so two
    commits in a row add the thread's counts to the global bank twice. *)
Theorem Commit_twice_double_counts NCOUNTERS MAX_THREADS (st : Adapter) t :
  Adapter_wf NCOUNTERS MAX_THREADS st → Enabled st = true →
  (t < MAX_THREADS)%nat →
  ∃ st1 st2,
    Commit NCOUNTERS st t = Some st1 ∧ Commit NCOUNTERS st1 t = Some st2
    ∧ thread_counters st1 = thread_counters st
    ∧ thread_counters st2 = thread_counters st
    ∧ ∀ c, (c < NCOUNTERS)%nat →
        ∃ gr gw tr tw,
          GetRead st c = Some gr ∧ GetWrite st c = Some gw
          ∧ TGetRead st t c = Some tr ∧ TGetWrite st t c = Some tw
          ∧ TGetRead st1 t c = Some tr ∧ TGetWrite st1 t c = Some tw
          ∧ GetRead st1 c = Some (wrap (gr + tr))
          ∧ GetWrite st1 c = Some (wrap (gw + tw))
          ∧ GetRead st2 c = Some (wrap (gr + tr + tr))
          ∧ GetWrite st2 c = Some (wrap (gw + tw + tw)).
Proof.
  intros Hwf He Ht.
  destruct (Commit_effect NCOUNTERS MAX_THREADS st t Hwf He Ht)
    as (st1 & Hst1 & Hwf1 & He1 & _ & Htc1 & Hcols1).
  destruct (Commit_effect NCOUNTERS MAX_THREADS st1 t Hwf1 He1 Ht)
    as (st2 & Hst2 & Hwf2 & He2 & _ & Htc2 & Hcols2).
  exists st1, st2. split_and!; [done | done | done | congruence |].
  intros c Hc.
  destruct (Hcols1 c Hc) as (gr & gw & tr & tw & Hgr & Hgw & Htr & Htw
                             & Hgr1 & Hgw1).
  destruct (Hcols2 c Hc) as (gr' & gw' & tr' & tw' & Hgr' & Hgw' & Htr' & Htw'
                             & Hgr2 & Hgw2).
  assert (Hsame : TGetRead st1 t c = TGetRead st t c
                  ∧ TGetWrite st1 t c = TGetWrite st t c).
  { unfold TGetRead, TGetWrite. by rewrite He, He1, Htc1. }
  destruct Hsame as [Hsr Hsw].
  exists gr, gw, tr, tw. split_and!; try congruence.
  - rewrite Hgr2. f_equal.
    assert (gr' = wrap (gr + tr)) as -> by congruence.
    assert (tr' = tr) as -> by congruence. apply wrap_add_l.
  - rewrite Hgw2. f_equal.
    assert (gw' = wrap (gw + tw)) as -> by congruence.
    assert (tw' = tw) as -> by congruence. apply wrap_add_l.
Qed.

(** C4, as stated, fails: after the counts of the first scenario the
    first call publishes 2 and resets the bank; the second call, on the
    all-zero bank, publishes 4 and returns [true]. *)
Lemma RecomputeSplit_twice_changes_split :
  run 4 (INITIALIZE_ADAPTER 4 1 true) skewed_calls
    ≫= RecomputeSplit_twice 4
  = Some (true, 2%nat, true, 4%nat).
Proof. by vm_compute. Qed.

(** C4, amended: [RecomputeSplit()] computes the split, resets the global
    bank (whether or not the split changed; when the feature is disabled
    the bank is left alone and reads as zero anyway), publishes the
    computed value and returns whether it differs from the stored one.
    A second call right after it computes over a bank that reads as zero,
    obtains [COLCOUNT], publishes it, and returns [true] exactly when the
    first call published something else. *)
Theorem RecomputeSplit_then_again NCOUNTERS MAX_THREADS (st : Adapter) :
  (1 ≤ NCOUNTERS)%nat → Adapter_wf NCOUNTERS MAX_THREADS st →
  ∃ k st1 st2,
    ComputeSplitIndex NCOUNTERS st = Some k
    ∧ RecomputeSplit NCOUNTERS st
      = Some (bool_decide (k ≠ current_split st), st1)
    ∧ current_split st1 = k
    ∧ global_counters st1
      = (if Enabled st then zero_set NCOUNTERS else global_counters st)
    ∧ thread_counters st1 = thread_counters st
    ∧ reads_zero NCOUNTERS st1
    ∧ ComputeSplitIndex NCOUNTERS st1 = Some NCOUNTERS
    ∧ RecomputeSplit NCOUNTERS st1
      = Some (bool_decide (NCOUNTERS ≠ k), st2)
    ∧ current_split st2 = NCOUNTERS
    ∧ global_counters st2 = global_counters st1
    ∧ thread_counters st2 = thread_counters st.
Proof.
  intros Hn Hwf.
  destruct (ComputeSplitIndex_range NCOUNTERS st) as (k & Hk & Hrange);
    [by eapply wf_readable | done |].
  set (st1 := set_current_split k (ResetGlobal st)).
  assert (Hz1 : reads_zero NCOUNTERS st1).
  { intros i Hi.
    destruct (ResetGlobal_reads_zero NCOUNTERS MAX_THREADS st Hwf i Hi).
    done. }
  assert (Hk1 : ComputeSplitIndex NCOUNTERS st1 = Some NCOUNTERS)
    by by apply ComputeSplitIndex_zero.
  assert (Hg1 : global_counters st1
                = if Enabled st then zero_set NCOUNTERS else global_counters st).
  { unfold st1, ResetGlobal. destruct Hwf as (Hg & _).
    destruct (Enabled st); simpl; [|done].
    by apply Reset_zero_set. }
  exists k, st1, (set_current_split NCOUNTERS (ResetGlobal st1)).
  split_and!; try done.
  - by apply RecomputeSplit_unfold.
  - apply ResetGlobal_thread_counters.
  - by rewrite (RecomputeSplit_unfold NCOUNTERS st1 NCOUNTERS Hk1).
  - change (global_counters (ResetGlobal st1) = global_counters st1).
    rewrite ResetGlobal_global_counters.
    assert (He1 : Enabled st1 = Enabled st) by apply ResetGlobal_Enabled.
    rewrite He1, Hg1. destruct (Enabled st); [|done].
    apply (Reset_zero_set NCOUNTERS), zero_set_wf.
  - simpl. rewrite ResetGlobal_thread_counters. simpl.
    apply ResetGlobal_thread_counters.
Qed.



(** * Instances *)

Lemma skew_pass_refines_spec_witness :
  ∃ b, skew_pass 4 skewed_snapshot = Some b
       ∧ skew_spec 4 skewed_snapshot = Some (best_split b)
       ∧ diff skewed_snapshot (best_split b)
         = Some (abs (best_write b - best_read b))%float
       ∧ (∀ s best d,
            diff skewed_snapshot s = Some d →
            diff skewed_snapshot best = Some d →
            skew_rule skewed_snapshot s best = Some best)
       ∧ (∀ s best ds db,
            diff skewed_snapshot s = Some ds →
            diff skewed_snapshot best = Some db →
            (db * 1.05 <? ds)%float = false →
            skew_rule skewed_snapshot s best = Some best)
       ∧ (∀ s1 s2,
            (1 ≤ s1)%nat → (s1 < s2 ≤ 4)%nat →
            diff skewed_snapshot s1 = diff skewed_snapshot s2 →
            best_split b ≠ s1).
Proof. apply (skew_pass_refines_spec 4 skewed_snapshot); solve_wf. Defined.

Lemma CurrentSplit_sentinel_witness :
  current_split (INITIALIZE_ADAPTER 4 1 true) = 0%nat
  ∧ CurrentSplit 4 (INITIALIZE_ADAPTER 4 1 true) = 4%nat
  ∧ current_split skewed_committed = 0%nat
  ∧ CurrentSplit 4 skewed_committed = 4%nat
  ∧ CurrentSplit 4 (set_current_split 0 skewed_bank) = 4%nat
  ∧ CurrentSplit 4 (set_current_split 3 skewed_bank) = 3%nat.
Proof.
  apply (CurrentSplit_sentinel 4 1 true skewed_calls
           skewed_bank skewed_committed 2).
  - repeat constructor; discriminate.
  - by vm_compute.
Defined.

Lemma split_in_range_witness :
  (∃ k, ComputeSplitIndex 4 skewed_bank = Some k ∧ (1 ≤ k ≤ 4)%nat)
  ∧ (∃ st', run 4 (INITIALIZE_ADAPTER 4 1 true)
              (skewed_calls ++ [CallRecomputeSplit]) = Some st'
          ∧ (1 ≤ CurrentSplit 4 st' ≤ 4)%nat).
Proof. apply (split_in_range 4 1 skewed_bank true); solve_wf. Defined.

Lemma RecomputeSplit_changed_from_sentinel_witness :
  ∃ st', RecomputeSplit 4 (INITIALIZE_ADAPTER 4 1 true) = Some (true, st')
         ∧ current_split st' = 4%nat
         ∧ CurrentSplit 4 (INITIALIZE_ADAPTER 4 1 true) = 4%nat
         ∧ CurrentSplit 4 st' = 4%nat.
Proof.
  destruct (RecomputeSplit_changed_from_sentinel 4
              (INITIALIZE_ADAPTER 4 1 true) 4)
    as (st' & _ & Hsplit & Hfirst); [by vm_compute|].
  exists st'. destruct Hfirst as (Hrec & Hbefore & Hafter); [reflexivity..|].
  by split_and!.
Defined.

Lemma RecomputeSplit_then_again_witness :
  ∃ k st1 st2,
    ComputeSplitIndex 4 skewed_bank = Some k
    ∧ RecomputeSplit 4 skewed_bank
      = Some (bool_decide (k ≠ current_split skewed_bank), st1)
    ∧ current_split st1 = k
    ∧ global_counters st1
      = (if Enabled skewed_bank then zero_set 4
         else global_counters skewed_bank)
    ∧ thread_counters st1 = thread_counters skewed_bank
    ∧ reads_zero 4 st1
    ∧ ComputeSplitIndex 4 st1 = Some 4%nat
    ∧ RecomputeSplit 4 st1 = Some (bool_decide (4%nat ≠ k), st2)
    ∧ current_split st2 = 4%nat
    ∧ global_counters st2 = global_counters st1
    ∧ thread_counters st2 = thread_counters skewed_bank.
Proof. apply (RecomputeSplit_then_again 4 1 skewed_bank); solve_wf. Defined.

Lemma disabled_is_noop_witness :
  ∃ st', run 4 (INITIALIZE_ADAPTER 4 1 false)
           (skewed_calls ++ [CallRecomputeSplit]) = Some st'
    ∧ Enabled st' = false
    ∧ global_counters st' = global_counters (INITIALIZE_ADAPTER 4 1 false)
    ∧ thread_counters st' = thread_counters (INITIALIZE_ADAPTER 4 1 false)
    ∧ (∀ t i, GetRead st' i = Some 0 ∧ GetWrite st' i = Some 0
              ∧ Get st' i = Some (0, 0)
              ∧ TGetRead st' t i = Some 0 ∧ TGetWrite st' t i = Some 0
              ∧ TGet st' t i = Some (0, 0))
    ∧ ComputeSplitIndex 4 st' = Some 4%nat
    ∧ RecomputeSplit 4 st'
      = Some (bool_decide (4%nat ≠ current_split st'),
              set_current_split 4 st').
Proof.
  apply (disabled_is_noop 4 (INITIALIZE_ADAPTER 4 1 false)); solve_wf.
Defined.

Lemma Commit_twice_double_counts_witness :
  ∃ st1 st2,
    Commit 4 two_workers 0 = Some st1 ∧ Commit 4 st1 0 = Some st2
    ∧ thread_counters st1 = thread_counters two_workers
    ∧ thread_counters st2 = thread_counters two_workers
    ∧ ∀ c, (c < 4)%nat →
        ∃ gr gw tr tw,
          GetRead two_workers c = Some gr ∧ GetWrite two_workers c = Some gw
          ∧ TGetRead two_workers 0 c = Some tr
          ∧ TGetWrite two_workers 0 c = Some tw
          ∧ TGetRead st1 0 c = Some tr ∧ TGetWrite st1 0 c = Some tw
          ∧ GetRead st1 c = Some (wrap (gr + tr))
          ∧ GetWrite st1 c = Some (wrap (gw + tw))
          ∧ GetRead st2 c = Some (wrap (gr + tr + tr))
          ∧ GetWrite st2 c = Some (wrap (gw + tw + tw)).
Proof. apply (Commit_twice_double_counts 4 2 two_workers 0); solve_wf. Defined.


(** * Further properties of the code *)

(** ** Binary64 arithmetic: the balance margin and NaN *)

Lemma margin_down_eq : Prim2SF 0.95 = margin_down.
Proof. reflexivity. Qed.

Lemma pow2_lt_inv a b : 0 ≤ b → 2 ^ a < 2 ^ b → a < b.
Proof. intros Hb H. apply Z.pow_lt_mono_r_iff in H; lia. Qed.

Lemma SFmul_margin_down_not_above m e :
  bounded prec emax m e = true →
  SFltb (S754_finite false m e)
        (SFmul prec emax (S754_finite false m e) margin_down) = false.
Proof.
  intros [Hcan Hmax]%andb_prop. unfold canonical_mantissa in Hcan.
  apply Z.eqb_eq in Hcan. apply Z.leb_le in Hmax.
  unfold margin_down. cbn [SFmul xorb].
  destruct (binary_round_aux_spec false
              (Zpos (m * 8556839292003942)) (e + -53) loc_Exact)
    as (m1 & Hm1 & ->); [lia|].
  cbn [Zdigits2] in *.
  pose proof (digits2_pos_bounds m) as [Hdm1 Hdm2].
  pose proof (digits2_pos_bounds (m * 8556839292003942)) as [HD1 HD2].
  set (dm := Zpos (digits2_pos m)) in *.
  set (D := Zpos (digits2_pos (m * 8556839292003942))) in *.
  assert (Hdmpos : 1 ≤ dm) by (unfold dm; lia).
  unfold fexp, emin, prec, emax in *.
  rewrite Pos2Z.inj_mul in *.
  set (mx := Zpos m * 8556839292003942) in *.
  assert (Hmx : 2 ^ 52 * Zpos m ≤ mx < 2 ^ 53 * Zpos m) by (unfold mx; lia).
  assert (HD : dm + 52 ≤ D ≤ dm + 53).
  { split.
    - assert (2 ^ (dm - 1 + 52) < 2 ^ D) as Hlt.
      { rewrite Z.pow_add_r by lia.
        assert (0 < 2 ^ (dm - 1)) by (apply Z.pow_pos_nonneg; lia). nia. }
      apply pow2_lt_inv in Hlt; lia.
    - assert (2 ^ (D - 1) < 2 ^ (dm + 53)) as Hlt.
      { rewrite Z.pow_add_r by lia. nia. }
      apply pow2_lt_inv in Hlt; lia. }
  set (n1 := Z.max (Z.max (D + (e + -53) - 53) (3 - 1024 - 53) - (e + -53)) 0)
    in *.
  assert (Hn1 : 0 ≤ n1 ≤ 53 ∧ D - 53 ≤ n1) by lia.
  assert (Hpow1 : 0 < 2 ^ n1) by (apply Z.pow_pos_nonneg; lia).
  set (q := mx / 2 ^ n1) in *.
  assert (Hq : q * 2 ^ n1 ≤ mx < (q + 1) * 2 ^ n1).
  { unfold q. pose proof (Z.mul_div_le mx (2 ^ n1) Hpow1).
    pose proof (Z.mul_succ_div_gt mx (2 ^ n1) Hpow1). lia. }
  assert (Hq53 : q < 2 ^ 53).
  { apply Z.div_lt_upper_bound; [done|].
    rewrite <- Z.pow_add_r by lia.
    eapply Z.lt_le_trans; [exact HD2|]. apply pow2_le. lia. }
  assert (Hq0 : 0 ≤ q) by (apply Z.div_pos; lia).
  destruct m1 as [|pm1|pm1]; [ | |lia].
  { (* the product rounds to zero *)
    rewrite Z.div_0_l by (apply Z.pow_nonzero; lia). done. }
  cbn [Zdigits2] in *.
  pose proof (digits2_pos_bounds pm1) as [HE1 HE2].
  set (D1 := Zpos (digits2_pos pm1)) in *.
  assert (HD1pos : 1 ≤ D1) by (unfold D1; lia).
  assert (HD154 : D1 ≤ 54).
  { assert (2 ^ (D1 - 1) < 2 ^ 54) as Hlt by lia.
    apply pow2_lt_inv in Hlt; lia. }
  set (e1 := e + -53 + n1) in *.
  set (n2 := Z.max (Z.max (D1 + e1 - 53) (3 - 1024 - 53) - e1) 0) in *.
  assert (Hn2 : 0 ≤ n2 ≤ 1 ∧ n2 = Z.max (D1 - 53) 0) by lia.
  (* nothing is gained by rounding when all 53 bits of the constant are
     shifted out: the quotient is below [m] *)
  assert (Hfull : n1 = 53 → n2 = 0 ∧ Zpos pm1 ≤ Zpos m).
  { intros Hn153. assert (q ≤ Zpos m - 1) by (rewrite Hn153 in Hq; lia).
    assert (D1 ≤ dm); [|lia].
    assert (2 ^ (D1 - 1) < 2 ^ dm) as Hlt' by lia.
    apply pow2_lt_inv in Hlt'; lia. }
  destruct (Zpos pm1 / 2 ^ n2) as [|m2|m2] eqn:Hm2; [done | |done].
  destruct (Z.leb_spec (e1 + n2) (1024 - 53)) as [_|Hbig]; [|lia].
  unfold SFltb. cbn [SFcompare].
  destruct (Z.compare_spec e (e1 + n2)) as [Heq|Hlt|Hgt]; [|lia|done].
  change (Pos.compare_cont Eq m m2) with (Pos.compare m m2).
  destruct (Pos.compare_spec m m2) as [_|Hlt|_]; [done| |done].
  exfalso.
  destruct (decide (n1 = 53)) as [Hn153|Hn153].
  - destruct (Hfull Hn153) as [Hn20 Hle].
    rewrite Hn20, Z.pow_0_r, Z.div_1_r in Hm2. lia.
  - (* the rounding carried into the next binade *)
    assert (n2 = 1 ∧ n1 = 52) as [Hn21 Hn152] by lia.
    rewrite Hn21, Z.pow_1_r in Hm2.
    pose proof (Z.mul_div_le (Zpos pm1) 2 ltac:(lia)) as Hdiv.
    rewrite Hm2 in Hdiv.
    assert (D1 = 54) as HD1eq by lia.
    rewrite HD1eq in HE1. change (54 - 1) with 53 in HE1.
    rewrite Hn152 in Hq. lia.
Qed.

Lemma SFltb_lt_le a b c :
  c ≠ S754_nan → SFltb a b = true → SFltb c b = false → SFltb a c = true.
Proof.
  destruct a as [[]|[]| |[] ma ea], b as [[]|[]| |[] mb eb],
    c as [[]|[]| |[] mc ec]; try done; SFcompare_cases.
Qed.

Lemma ltb_margin_down_self (x : float) :
  (abs x <? abs x * 0.95)%float = false.
Proof.
  rewrite ltb_spec, mul_spec, abs_spec, margin_down_eq.
  pose proof (Prim2SF_valid x) as Hv.
  destruct (Prim2SF x) as [s|s| |s m e]; try reflexivity.
  by apply SFmul_margin_down_not_above.
Qed.

Lemma ltb_margin_down_mono (d b c : float) :
  (d <? b * 0.95)%float = false →
  (abs c <? b * 0.95)%float = true →
  (d <? abs c * 0.95)%float = false.
Proof.
  intros Hdb Hcb. destruct (d <? abs c * 0.95)%float eqn:Hdc; [|done].
  exfalso. pose proof (ltb_margin_down_self c) as Hself.
  rewrite ltb_spec in *.
  assert (Prim2SF (abs c) ≠ S754_nan) as Hnan.
  { intros Hn. rewrite Hn in Hcb. done. }
  pose proof (SFltb_lt_le _ _ _ Hnan Hdc Hself) as H1.
  pose proof (SFltb_trans _ _ _ H1 Hcb). congruence.
Qed.

Lemma sub_nan_r (x : float) : (x - nan)%float = nan.
Proof.
  apply Prim2SF_inj. rewrite sub_spec.
  change (Prim2SF nan) with S754_nan. by destruct (Prim2SF x) as [[]|[]| |[]].
Qed.

Lemma sub_nan_l (x : float) : (nan - x)%float = nan.
Proof. apply Prim2SF_inj. by rewrite sub_spec. Qed.

Lemma ltb_nan_r (x : float) : (x <? nan)%float = false.
Proof.
  rewrite ltb_spec. change (Prim2SF nan) with S754_nan.
  by destruct (Prim2SF x) as [[]|[]| |[]].
Qed.

(** ** Counting *)

(** X1: on an enabled adapter [CountRead] and [CountWrite] add [count] to
    one slot of the calling thread's bank, in [counter_type] arithmetic,
    and to nothing else: the other columns, the other kind of counter,
    the banks of the other threads, the global bank and the published
    split are as before. *)
Theorem Count_touches_one_slot NCOUNTERS MAX_THREADS (st : Adapter) t i n :
  Adapter_wf NCOUNTERS MAX_THREADS st → Enabled st = true →
  (t < MAX_THREADS)%nat → (i < NCOUNTERS)%nat →
  ∃ sr sw x y,
    CountRead NCOUNTERS st t i n = Some sr
    ∧ CountWrite NCOUNTERS st t i n = Some sw
    ∧ TGetRead st t i = Some x ∧ TGetWrite st t i = Some y
    ∧ TGetRead sr t i = Some (wrap (x + n))
    ∧ TGetWrite sw t i = Some (wrap (y + n))
    ∧ (∀ t' c, t' ≠ t ∨ c ≠ i →
         TGetRead sr t' c = TGetRead st t' c
         ∧ TGetWrite sw t' c = TGetWrite st t' c)
    ∧ (∀ t' c, TGetWrite sr t' c = TGetWrite st t' c
               ∧ TGetRead sw t' c = TGetRead st t' c)
    ∧ global_counters sr = global_counters st
    ∧ global_counters sw = global_counters st
    ∧ current_split sr = current_split st
    ∧ current_split sw = current_split st.
Proof.
  intros Hwf He Ht Hi.
  destruct (CountRead_effect NCOUNTERS MAX_THREADS st t i n Hwf He Ht Hi)
    as (sr & x & Hsr & _ & Hgr & Hx & Hrr & Hrw).
  destruct (CountWrite_effect NCOUNTERS MAX_THREADS st t i n Hwf He Ht Hi)
    as (sw & y & Hsw & _ & Hgw & Hy & Hww & Hwr).
  exists sr, sw, x, y. split_and!; try done.
  - rewrite Hrr. by rewrite decide_True.
  - rewrite Hww. by rewrite decide_True.
  - intros t' c Hne. rewrite Hrr, Hww.
    by rewrite !decide_False by (intros [-> ->]; tauto).
  - apply (exec_current_split NCOUNTERS st (CallCountRead t i n)); done.
  - apply (exec_current_split NCOUNTERS st (CallCountWrite t i n)); done.
Qed.

(** X2: the column index is checked before the enablement flag: a call
    of [CountRead] or [CountWrite] completes exactly when the index is
    below [COLCOUNT] and, on an enabled adapter, the thread handle is
    below [MAX_THREADS]; in particular an index out of range stops the
    program even when the feature is disabled. *)
Theorem Count_defined_iff NCOUNTERS MAX_THREADS (st : Adapter) t i n :
  Adapter_wf NCOUNTERS MAX_THREADS st →
  (is_Some (CountRead NCOUNTERS st t i n)
   ↔ (i < NCOUNTERS)%nat ∧ (Enabled st = true → (t < MAX_THREADS)%nat))
  ∧ (is_Some (CountWrite NCOUNTERS st t i n)
     ↔ (i < NCOUNTERS)%nat ∧ (Enabled st = true → (t < MAX_THREADS)%nat)).
Proof.
  intros Hwf. pose proof Hwf as (_ & Hlen & Hall).
  unfold CountRead, CountWrite.
  destruct (decide (i < NCOUNTERS)%nat) as [Hi|Hi]; cycle 1.
  { split; (split; [by intros [? ?] | tauto]). }
  destruct (Enabled st) eqn:He.
  2:{ split; (split; [done | by eauto]). }
  destruct (decide (t < MAX_THREADS)%nat) as [Ht|Ht].
  - destruct (wf_thread_lookup NCOUNTERS MAX_THREADS st t Hwf Ht)
      as (cs & -> & (Hr & Hw & _)). simpl.
    destruct (lookup_lt_is_Some_2 (read_counters cs) i) as [x ->]; [lia|].
    destruct (lookup_lt_is_Some_2 (write_counters cs) i) as [y ->]; [lia|].
    simpl. split; (split; [done | by eauto]).
  - rewrite (lookup_ge_None_2 (thread_counters st) t) by lia. simpl.
    split; (split; [by intros [? ?] | tauto]).
Qed.

(** ** Resets *)

Lemma add_counters_zero n (g : list Z) :
  length g = n → Forall is_counter g → add_counters g (replicate n 0) = g.
Proof.
  intros Hlen Hg. apply list_eq. intros c. rewrite lookup_add_counters.
  destruct (g !! c) as [x|] eqn:Hx; simpl; [|done].
  rewrite lookup_replicate_2 by (apply lookup_lt_Some in Hx; lia). simpl.
  rewrite Z.add_0_r, wrap_small; [done|]. by eapply Forall_lookup_1.
Qed.

Lemma add_sets_zero n g : CounterSet_wf n g → add_sets g (zero_set n) = g.
Proof.
  intros (Hr & Hw & Hrr & Hwr). destruct g as [r w]. unfold add_sets. simpl in *.
  by rewrite !(add_counters_zero n).
Qed.

Lemma ResetThread_effect NCOUNTERS MAX_THREADS st t :
  Adapter_wf NCOUNTERS MAX_THREADS st → Enabled st = true →
  (t < MAX_THREADS)%nat →
  ResetThread st t
  = Some (set_thread_counters
            (<[t := zero_set NCOUNTERS]> (thread_counters st)) st).
Proof.
  intros Hwf He Ht. unfold ResetThread. rewrite He.
  destruct (wf_thread_lookup NCOUNTERS MAX_THREADS st t Hwf Ht)
    as (cs & -> & Hcs). simpl.
  by rewrite (Reset_zero_set NCOUNTERS).
Qed.

(** X3: on an enabled adapter [ResetThread] zeroes every counter of the
    calling thread and nothing else: the banks of the other threads, the
    global bank and the published split are as before. *)
Theorem ResetThread_zeroes_own_bank NCOUNTERS MAX_THREADS (st : Adapter) t :
  Adapter_wf NCOUNTERS MAX_THREADS st → Enabled st = true →
  (t < MAX_THREADS)%nat →
  ∃ st', ResetThread st t = Some st'
    ∧ Adapter_wf NCOUNTERS MAX_THREADS st'
    ∧ (∀ c, (c < NCOUNTERS)%nat →
         TGetRead st' t c = Some 0 ∧ TGetWrite st' t c = Some 0)
    ∧ (∀ t' c, t' ≠ t →
         TGetRead st' t' c = TGetRead st t' c
         ∧ TGetWrite st' t' c = TGetWrite st t' c)
    ∧ global_counters st' = global_counters st
    ∧ current_split st' = current_split st.
Proof.
  intros Hwf He Ht.
  rewrite (ResetThread_effect NCOUNTERS MAX_THREADS st t Hwf He Ht).
  pose proof Hwf as (_ & Hlen & _).
  eexists. split_and!; try done.
  - apply set_thread_wf; [done | apply zero_set_wf].
  - intros c Hc. unfold TGetRead, TGetWrite. simpl. rewrite He.
    rewrite list_lookup_insert_eq by lia. simpl.
    by rewrite lookup_replicate_2.
  - intros t' c Hne. unfold TGetRead, TGetWrite. simpl. rewrite He.
    by rewrite list_lookup_insert_ne.
Qed.

(** X4: resetting the thread between two commits prevents the double
    count: after [Commit(); ResetThread(); Commit()] the global bank is
    what the first [Commit()] left. *)
Theorem Commit_ResetThread_Commit_counts_once NCOUNTERS MAX_THREADS
    (st : Adapter) t :
  Adapter_wf NCOUNTERS MAX_THREADS st → Enabled st = true →
  (t < MAX_THREADS)%nat →
  ∃ st1 st3,
    Commit NCOUNTERS st t = Some st1
    ∧ run NCOUNTERS st [CallCommit t; CallResetThread t; CallCommit t]
      = Some st3
    ∧ global_counters st3 = global_counters st1
    ∧ ∀ c, GetRead st3 c = GetRead st1 c ∧ GetWrite st3 c = GetWrite st1 c.
Proof.
  intros Hwf He Ht.
  destruct (Commit_effect NCOUNTERS MAX_THREADS st t Hwf He Ht)
    as (st1 & Hst1 & Hwf1 & He1 & _).
  pose proof (ResetThread_effect NCOUNTERS MAX_THREADS st1 t Hwf1 He1 Ht)
    as Hst2.
  set (st2 := set_thread_counters
                (<[t := zero_set NCOUNTERS]> (thread_counters st1)) st1)
    in Hst2.
  assert (Hwf2 : Adapter_wf NCOUNTERS MAX_THREADS st2)
    by (apply set_thread_wf; [done | apply zero_set_wf]).
  assert (Htc2 : thread_counters st2 !! t = Some (zero_set NCOUNTERS)).
  { unfold st2. simpl. apply list_lookup_insert_eq.
    destruct Hwf1 as (_ & Hlen & _). lia. }
  pose proof (Commit_enabled NCOUNTERS MAX_THREADS st2 t _ Hwf2 He1 Htc2)
    as Hst3.
  assert (Hg3 : add_sets (global_counters st2) (zero_set NCOUNTERS)
                = global_counters st1).
  { apply add_sets_zero. by destruct Hwf1. }
  rewrite Hg3 in Hst3.
  exists st1, (set_global_counters (global_counters st1) st2).
  split_and!; try done.
  cbn [run exec]. rewrite Hst1. simpl. rewrite Hst2. simpl.
  by rewrite Hst3.
Qed.

(** X5: on an enabled adapter [ResetGlobal] zeroes the global bank and
    leaves the thread banks and the published split alone; a second
    reset changes nothing; and a [Commit] right after it makes the global
    bank a copy of the committing thread's bank. *)
Theorem ResetGlobal_opens_window NCOUNTERS MAX_THREADS (st : Adapter) t :
  Adapter_wf NCOUNTERS MAX_THREADS st → Enabled st = true →
  (t < MAX_THREADS)%nat →
  global_counters (ResetGlobal st) = zero_set NCOUNTERS
  ∧ (∀ c, (c < NCOUNTERS)%nat →
       GetRead (ResetGlobal st) c = Some 0
       ∧ GetWrite (ResetGlobal st) c = Some 0)
  ∧ thread_counters (ResetGlobal st) = thread_counters st
  ∧ current_split (ResetGlobal st) = current_split st
  ∧ ResetGlobal (ResetGlobal st) = ResetGlobal st
  ∧ ∃ st', Commit NCOUNTERS (ResetGlobal st) t = Some st'
      ∧ ∀ c, (c < NCOUNTERS)%nat →
          GetRead st' c = TGetRead st t c
          ∧ GetWrite st' c = TGetWrite st t c.
Proof.
  intros Hwf He Ht. pose proof Hwf as (Hg & _).
  assert (Hgz : global_counters (ResetGlobal st) = zero_set NCOUNTERS).
  { rewrite ResetGlobal_global_counters, He. by apply Reset_zero_set. }
  pose proof (ResetGlobal_wf NCOUNTERS MAX_THREADS st Hwf) as Hwf'.
  pose proof (ResetGlobal_Enabled st) as He'. rewrite He in He'.
  split_and!.
  - done.
  - by apply (ResetGlobal_reads_zero NCOUNTERS MAX_THREADS).
  - apply ResetGlobal_thread_counters.
  - apply ResetGlobal_current_split.
  - unfold ResetGlobal at 1. rewrite He'.
    rewrite Hgz, (Reset_zero_set NCOUNTERS) by apply zero_set_wf.
    unfold ResetGlobal. rewrite He. unfold set_global_counters. simpl.
    f_equal. symmetry. by apply Reset_zero_set.
  - destruct (Commit_effect NCOUNTERS MAX_THREADS (ResetGlobal st) t
                Hwf' He' Ht) as (st' & Hst' & _ & _ & _ & _ & Hcols).
    exists st'. split; [done|]. intros c Hc.
    destruct (Hcols c Hc) as (gr & gw & tr & tw & Hgr & Hgw & Htr & Htw
                              & Hr' & Hw').
    destruct (ResetGlobal_reads_zero NCOUNTERS MAX_THREADS st Hwf c Hc)
      as [Hzr Hzw].
    assert (gr = 0) as -> by congruence. assert (gw = 0) as -> by congruence.
    assert (Hsame : TGetRead (ResetGlobal st) t c = TGetRead st t c
                    ∧ TGetWrite (ResetGlobal st) t c = TGetWrite st t c).
    { unfold TGetRead, TGetWrite.
      by rewrite He', He, ResetGlobal_thread_counters. }
    destruct Hsame as [Hsr Hsw]. rewrite Hsr in Htr. rewrite Hsw in Htw.
    destruct (TGet_is_counter NCOUNTERS MAX_THREADS st t c tr tw Hwf He Htr Htw)
      as [Hcr Hcw].
    rewrite Hr', Hw', Htr, Htw, !Z.add_0_l, !wrap_small; done.
Qed.

(** ** Commits and the advisor *)

Lemma add_counters_comm g a b :
  add_counters (add_counters g a) b = add_counters (add_counters g b) a.
Proof.
  apply list_eq. intros c. rewrite !lookup_add_counters.
  destruct (g !! c) as [x|]; simpl; [|done].
  destruct (a !! c) as [y|], (b !! c) as [z|]; simpl; try done.
  rewrite !wrap_add_l. do 2 f_equal. lia.
Qed.

(** X6: commits of two threads commute: whichever thread commits first,
    both commits complete and the adapter ends in the same state. *)
Theorem Commit_order_irrelevant NCOUNTERS MAX_THREADS (st : Adapter) t1 t2 :
  Adapter_wf NCOUNTERS MAX_THREADS st → Enabled st = true →
  (t1 < MAX_THREADS)%nat → (t2 < MAX_THREADS)%nat →
  ∃ st', run NCOUNTERS st [CallCommit t1; CallCommit t2] = Some st'
         ∧ run NCOUNTERS st [CallCommit t2; CallCommit t1] = Some st'.
Proof.
  intros Hwf He Ht1 Ht2.
  destruct (wf_thread_lookup NCOUNTERS MAX_THREADS st t1 Hwf Ht1)
    as (tc1 & Htc1 & Hwf1).
  destruct (wf_thread_lookup NCOUNTERS MAX_THREADS st t2 Hwf Ht2)
    as (tc2 & Htc2 & Hwf2).
  assert (Hstep : ∀ t tc t' tc',
    thread_counters st !! t = Some tc → CounterSet_wf NCOUNTERS tc →
    thread_counters st !! t' = Some tc' →
    run NCOUNTERS st [CallCommit t; CallCommit t']
    = Some (set_global_counters
              (add_sets (add_sets (global_counters st) tc) tc') st)).
  { intros t tc t' tc' Htc Htcwf Htc'. cbn [run exec].
    rewrite (Commit_enabled NCOUNTERS MAX_THREADS st t tc) by done. simpl.
    rewrite (Commit_enabled NCOUNTERS MAX_THREADS _ t' tc'); try done.
    destruct Hwf as (Hg & Hlen & Hall). split; [|done]. simpl.
    by apply add_sets_wf. }
  eexists. split; [by apply (Hstep t1 tc1 t2 tc2)|].
  rewrite (Hstep t2 tc2 t1 tc1) by done. do 2 f_equal.
  unfold add_sets. simpl. f_equal; apply add_counters_comm.
Qed.

Lemma exec_local_frame NCOUNTERS st c st' :
  is_local c → exec NCOUNTERS st c = Some st' →
  Enabled st' = Enabled st ∧ global_counters st' = global_counters st
  ∧ current_split st' = current_split st.
Proof.
  destruct c as [t i n|t i n|t| | |t]; simpl; try done; intros _.
  - unfold CountRead. case_decide; [|done]. destruct (Enabled st) eqn:He.
    + destruct (thread_counters st !! t) as [cs|]; simpl; [|done].
      destruct (read_counters cs !! i); simpl; [|done]. by intros [= <-].
    + by intros [= <-].
  - unfold CountWrite. case_decide; [|done]. destruct (Enabled st) eqn:He.
    + destruct (thread_counters st !! t) as [cs|]; simpl; [|done].
      destruct (write_counters cs !! i); simpl; [|done]. by intros [= <-].
    + by intros [= <-].
  - unfold ResetThread. destruct (Enabled st) eqn:He.
    + destruct (thread_counters st !! t) as [cs|]; simpl; [|done].
      by intros [= <-].
    + by intros [= <-].
Qed.

(** X7: counts that have not been committed are invisible outside their
    thread: a sequence of [CountRead], [CountWrite] and [ResetThread]
    calls changes neither the global queries nor the published split nor
    what [ComputeSplitIndex()] returns. *)
Theorem local_calls_are_invisible NCOUNTERS (st : Adapter) cs st' :
  Forall is_local cs → run NCOUNTERS st cs = Some st' →
  global_counters st' = global_counters st
  ∧ current_split st' = current_split st
  ∧ (∀ c, GetRead st' c = GetRead st c ∧ GetWrite st' c = GetWrite st c)
  ∧ ComputeSplitIndex NCOUNTERS st' = ComputeSplitIndex NCOUNTERS st.
Proof.
  intros Hcs Hrun.
  assert (Hframe : Enabled st' = Enabled st
                   ∧ global_counters st' = global_counters st
                   ∧ current_split st' = current_split st).
  { revert st Hrun. induction Hcs as [|c cs Hc Hcs IH]; intros st Hrun.
    - simpl in Hrun. by injection Hrun as ->.
    - simpl in Hrun.
      destruct (exec NCOUNTERS st c) as [st1|] eqn:Hex; simpl in Hrun; [|done].
      destruct (exec_local_frame NCOUNTERS st c st1 Hc Hex) as (He1 & Hg1 & Hs1).
      destruct (IH st1 Hrun) as (He' & Hg' & Hs').
      split_and!; congruence. }
  destruct Hframe as (He & Hg & Hs). split_and!; try done.
  - intros c. unfold GetRead, GetWrite. by rewrite He, Hg.
  - by apply ComputeSplitIndex_ext.
Qed.

(** ** The snapshot *)

Lemma sumZ_app l1 l2 : sumZ (l1 ++ l2) = sumZ l1 + sumZ l2.
Proof. unfold sumZ. induction l1 as [|x l1 IH]; simpl; lia. Qed.

Lemma sumZ_take_S (l : list Z) i x :
  l !! i = Some x → sumZ (take (S i) l) = sumZ (take i l) + x.
Proof.
  intros Hx. rewrite (take_S_r _ _ _ Hx), sumZ_app. unfold sumZ. simpl. lia.
Qed.

(** Running sum in [counter_type] arithmetic, as one loop of the snapshot
    computes it. *)
Lemma psum_step (l : list Z) i x acc :
  l !! i = Some x → acc = wrap (sumZ (take i l)) →
  wrap (acc + x) = wrap (sumZ (take (S i) l)).
Proof.
  intros Hx ->. by rewrite wrap_add_l, (sumZ_take_S l i x).
Qed.

(** X8: on an enabled adapter the snapshot loop of [ComputeSplitIndex()]
    fills [read_psum] and [write_psum] with the running sums of the global
    counters and the totals with the full sums, all reduced to
    [counter_type]; the last prefix sum is the total. *)
Theorem take_snapshot_prefix_sums NCOUNTERS MAX_THREADS (st : Adapter) :
  Adapter_wf NCOUNTERS MAX_THREADS st → Enabled st = true →
  ∃ sn, take_snapshot NCOUNTERS st = Some sn
    ∧ Snapshot_wf NCOUNTERS sn
    ∧ (∀ i, (i < NCOUNTERS)%nat →
         read_psum sn !! i
         = Some (wrap (sumZ (take (S i) (read_counters (global_counters st)))))
         ∧ write_psum sn !! i
           = Some (wrap (sumZ (take (S i)
                                 (write_counters (global_counters st))))))
    ∧ read_total sn = wrap (sumZ (read_counters (global_counters st)))
    ∧ write_total sn = wrap (sumZ (write_counters (global_counters st)))
    ∧ ((1 ≤ NCOUNTERS)%nat →
       read_psum sn !! (NCOUNTERS - 1)%nat = Some (read_total sn)
       ∧ write_psum sn !! (NCOUNTERS - 1)%nat = Some (write_total sn)).
Proof.
  intros ((HRlen & HWlen & HRr & HWr) & _) He.
  set (R := read_counters (global_counters st)) in *.
  set (W := write_counters (global_counters st)) in *.
  set (P := λ (i : nat) (sn : Snapshot),
    Snapshot_wf NCOUNTERS sn
    ∧ (∀ j, (j < i)%nat →
         read_psum sn !! j = Some (wrap (sumZ (take (S j) R)))
         ∧ write_psum sn !! j = Some (wrap (sumZ (take (S j) W))))
    ∧ read_total sn = wrap (sumZ (take i R))
    ∧ write_total sn = wrap (sumZ (take i W))).
  destruct (for_loop_seq_inv P (snapshot_body st) 0 NCOUNTERS
              (snapshot_init NCOUNTERS)) as (sn & Hsn & Hwf & Hps & Hrt & Hwt).
  - split_and!; try done; [split; simpl; apply length_replicate | lia].
  - intros i sn [_ Hi] ((Hlr & Hlw) & Hps & Hrt & Hwt). simpl in Hi.
    destruct (lookup_lt_is_Some_2 R i) as [r Hr]; [lia|].
    destruct (lookup_lt_is_Some_2 W i) as [w Hw]; [lia|].
    assert (Hrc : is_counter r) by apply (Forall_lookup_1 _ _ _ _ HRr Hr).
    assert (Hwc : is_counter w) by apply (Forall_lookup_1 _ _ _ _ HWr Hw).
    unfold snapshot_body, GetRead, GetWrite. rewrite He. fold R W.
    rewrite Hr, Hw. simpl.
    assert (∃ rp wp,
      match i with
      | O => Some (r, w)
      | S prev =>
          rprev ← read_psum sn !! prev; wprev ← write_psum sn !! prev;
          Some (wrap (rprev + r), wrap (wprev + w))
      end = Some (rp, wp)
      ∧ rp = wrap (sumZ (take (S i) R)) ∧ wp = wrap (sumZ (take (S i) W)))
      as (rp & wp & -> & Hrp & Hwp).
    { destruct i as [|prev].
      - exists r, w. split; [done|].
        rewrite (sumZ_take_S R 0 r Hr), (sumZ_take_S W 0 w Hw). simpl.
        by rewrite !wrap_small.
      - destruct (Hps prev) as [-> ->]; [lia|]. simpl.
        eexists _, _. split; [done|].
        split; by apply psum_step. }
    simpl. eexists. split; [done|]. split_and!; simpl.
    + split; simpl; by rewrite length_insert.
    + intros j Hj. destruct (decide (j = i)) as [->|Hne].
      * rewrite !list_lookup_insert_eq by lia. by rewrite Hrp, Hwp.
      * rewrite !list_lookup_insert_ne by done. apply Hps. lia.
    + by apply psum_step.
    + by apply psum_step.
  - simpl in *. rewrite (take_ge R), (take_ge W) in * by lia.
    exists sn. split_and!; try done.
    intros Hn. destruct (Hps (NCOUNTERS - 1)%nat) as [Hr Hw]; [lia|].
    replace (S (NCOUNTERS - 1)) with NCOUNTERS in Hr, Hw by lia.
    rewrite (take_ge R) in Hr by lia. rewrite (take_ge W) in Hw by lia.
    by rewrite Hr, Hw, Hrt, Hwt.
Qed.

(** ** Banks without reads or without writes *)

Section OneSided.

Context (NCOUNTERS : nat).

Lemma insert_zero_replicate i :
  <[i := 0]> (replicate NCOUNTERS 0) = replicate NCOUNTERS 0.
Proof.
  destruct (decide (i < NCOUNTERS)%nat).
  - by apply list_insert_id, lookup_replicate_2.
  - apply list_insert_ge. rewrite length_replicate. lia.
Qed.

Lemma take_snapshot_no_writes st :
  readable NCOUNTERS st →
  (∀ c, (c < NCOUNTERS)%nat → GetWrite st c = Some 0) →
  ∃ sn, take_snapshot NCOUNTERS st = Some sn
    ∧ length (read_psum sn) = NCOUNTERS
    ∧ write_psum sn = replicate NCOUNTERS 0 ∧ write_total sn = 0.
Proof.
  intros Hrd Hz. unfold take_snapshot, ascending.
  apply (for_loop_inv (λ sn, length (read_psum sn) = NCOUNTERS
           ∧ write_psum sn = replicate NCOUNTERS 0 ∧ write_total sn = 0)).
  { split_and!; try done. simpl. apply length_replicate. }
  intros i sn Hi%elem_of_seq (Hlen & Hwp & Hwt).
  destruct (Hrd i) as [[r Hr] _]; [lia|].
  unfold snapshot_body. rewrite Hr, Hz by lia. simpl.
  destruct i as [|prev]; simpl.
  - eexists. split; [done|]. simpl.
    by rewrite length_insert, Hwp, Hwt, insert_zero_replicate.
  - destruct (lookup_lt_is_Some_2 (read_psum sn) prev) as [rp ->]; [lia|].
    rewrite Hwp, lookup_replicate_2 by lia. simpl.
    eexists. split; [done|]. simpl.
    rewrite length_insert, Hwt. change (wrap (0 + 0)) with 0.
    by rewrite insert_zero_replicate.
Qed.

Lemma take_snapshot_no_reads st :
  readable NCOUNTERS st →
  (∀ c, (c < NCOUNTERS)%nat → GetRead st c = Some 0) →
  ∃ sn, take_snapshot NCOUNTERS st = Some sn
    ∧ length (write_psum sn) = NCOUNTERS
    ∧ read_psum sn = replicate NCOUNTERS 0 ∧ read_total sn = 0.
Proof.
  intros Hrd Hz. unfold take_snapshot, ascending.
  apply (for_loop_inv (λ sn, length (write_psum sn) = NCOUNTERS
           ∧ read_psum sn = replicate NCOUNTERS 0 ∧ read_total sn = 0)).
  { split_and!; try done. simpl. apply length_replicate. }
  intros i sn Hi%elem_of_seq (Hlen & Hrp & Hrt).
  destruct (Hrd i) as [_ [w Hw]]; [lia|].
  unfold snapshot_body. rewrite Hw, Hz by lia. simpl.
  destruct i as [|prev]; simpl.
  - eexists. split; [done|]. simpl.
    by rewrite length_insert, Hrp, Hrt, insert_zero_replicate.
  - rewrite Hrp, lookup_replicate_2 by lia. simpl.
    destruct (lookup_lt_is_Some_2 (write_psum sn) prev) as [wp ->]; [lia|].
    simpl. eexists. split; [done|]. simpl.
    rewrite length_insert, Hrt. change (wrap (0 + 0)) with 0.
    by rewrite insert_zero_replicate.
Qed.

(** With a zero write total every write fraction is a NaN, and so is
    every diff. *)
Lemma skew_pass_no_writes sn :
  (1 ≤ NCOUNTERS)%nat → length (read_psum sn) = NCOUNTERS →
  write_psum sn = replicate NCOUNTERS 0 → write_total sn = 0 →
  best_split <$> skew_pass NCOUNTERS sn = Some NCOUNTERS.
Proof.
  intros Hn Hlen Hwp Hwt. unfold skew_pass.
  destruct (fraction_is_Some (read_psum sn) (read_total sn) NCOUNTERS)
    as [r ->]; [lia|].
  rewrite Hwp, Hwt, fraction_zero_total by lia. simpl.
  match goal with |- _ <$> for_loop ?body ?l ?b = _ =>
    destruct (for_loop_inv (λ x, x = b) body l b) as (y & -> & ->);
      [done | | done]
  end.
  intros s b Hs%elem_of_descending ->. unfold skew_body. simpl.
  destruct (fraction_is_Some (read_psum sn) (read_total sn) s) as [cr ->];
    [lia|].
  rewrite Hwp, Hwt, fraction_zero_total by lia. simpl.
  rewrite (sub_nan_l cr). change (abs nan) with nan.
  rewrite ltb_nan_r. eauto.
Qed.

Lemma skew_pass_no_reads sn :
  (1 ≤ NCOUNTERS)%nat → length (write_psum sn) = NCOUNTERS →
  read_psum sn = replicate NCOUNTERS 0 → read_total sn = 0 →
  best_split <$> skew_pass NCOUNTERS sn = Some NCOUNTERS.
Proof.
  intros Hn Hlen Hrp Hrt. unfold skew_pass.
  rewrite Hrp, Hrt, fraction_zero_total by lia. simpl.
  destruct (fraction_is_Some (write_psum sn) (write_total sn) NCOUNTERS)
    as [w ->]; [lia|].
  simpl.
  match goal with |- _ <$> for_loop ?body ?l ?b = _ =>
    destruct (for_loop_inv (λ x, x = b) body l b) as (y & -> & ->);
      [done | | done]
  end.
  intros s b Hs%elem_of_descending ->. unfold skew_body. simpl.
  rewrite Hrp, Hrt, fraction_zero_total by lia. simpl.
  destruct (fraction_is_Some (write_psum sn) (write_total sn) s) as [cw ->];
    [lia|].
  simpl. rewrite (sub_nan_r cw). change (abs nan) with nan.
  rewrite ltb_nan_r. eauto.
Qed.

Lemma balance_pass_no_writes sn :
  (1 ≤ NCOUNTERS)%nat →
  write_psum sn = replicate NCOUNTERS 0 → write_total sn = 0 →
  balance_pass NCOUNTERS sn NCOUNTERS = Some NCOUNTERS.
Proof.
  intros Hn Hwp Hwt. unfold balance_pass. rewrite decide_True by done.
  match goal with |- for_loop ?body ?l ?b = _ =>
    destruct (for_loop_inv (λ x, x = b) body l b) as (y & Hy & ->);
      [done | | done]
  end.
  intros s b Hs%elem_of_descending ->. unfold balance_body.
  rewrite Hwp, Hwt, !fraction_zero_total by lia. simpl. eauto.
Qed.

End OneSided.

(** X9: a bank without writes never yields a split: whatever the read
    counters are, if every write counter reads as zero then
    [ComputeSplitIndex()] returns [COLCOUNT]. *)
Theorem ComputeSplitIndex_no_writes NCOUNTERS MAX_THREADS (st : Adapter) :
  (1 ≤ NCOUNTERS)%nat → Adapter_wf NCOUNTERS MAX_THREADS st →
  (∀ c, (c < NCOUNTERS)%nat → GetWrite st c = Some 0) →
  ComputeSplitIndex NCOUNTERS st = Some NCOUNTERS.
Proof.
  intros Hn Hwf Hz.
  destruct (take_snapshot_no_writes NCOUNTERS st) as (sn & Hsn & Hlen & Hwp & Hwt);
    [by eapply wf_readable | done |].
  unfold ComputeSplitIndex. rewrite Hsn. simpl.
  pose proof (skew_pass_no_writes NCOUNTERS sn Hn Hlen Hwp Hwt) as Hskew.
  destruct (skew_pass NCOUNTERS sn) as [b|]; simpl in *; [|done].
  injection Hskew as ->. by apply balance_pass_no_writes.
Qed.

(** X10: a bank without reads is split by the balance pass alone: if
    every read counter reads as zero, the skew pass keeps [COLCOUNT] and
    [ComputeSplitIndex()] returns what the balance pass selects. *)
Theorem ComputeSplitIndex_no_reads NCOUNTERS MAX_THREADS (st : Adapter) :
  (1 ≤ NCOUNTERS)%nat → Adapter_wf NCOUNTERS MAX_THREADS st →
  (∀ c, (c < NCOUNTERS)%nat → GetRead st c = Some 0) →
  ∃ sn, take_snapshot NCOUNTERS st = Some sn
    ∧ best_split <$> skew_pass NCOUNTERS sn = Some NCOUNTERS
    ∧ ComputeSplitIndex NCOUNTERS st = balance_pass NCOUNTERS sn NCOUNTERS.
Proof.
  intros Hn Hwf Hz.
  destruct (take_snapshot_no_reads NCOUNTERS st) as (sn & Hsn & Hlen & Hrp & Hrt);
    [by eapply wf_readable | done |].
  exists sn. split; [done|].
  pose proof (skew_pass_no_reads NCOUNTERS sn Hn Hlen Hrp Hrt) as Hskew.
  split; [done|].
  unfold ComputeSplitIndex. rewrite Hsn. simpl.
  destruct (skew_pass NCOUNTERS sn) as [b|]; simpl in *; [|done].
  by injection Hskew as ->.
Qed.

(** ** The selected split against the other candidates *)

(** Invariant rule that records the indices already visited. *)
Lemma for_loop_inv_seen {A} (P : list nat → A → Prop)
    (body : nat → A → option A) l seen a :
  P seen a →
  (∀ seen' i x, i ∈ l → P seen' x → ∃ y, body i x = Some y ∧ P (i :: seen') y) →
  ∃ y, for_loop body l a = Some y ∧ P (reverse l ++ seen) y.
Proof.
  revert seen a. induction l as [|i l IH]; intros seen a Ha Hstep; simpl.
  - by exists a.
  - destruct (Hstep seen i a) as (y & -> & Hy); [left | done |]. simpl.
    rewrite reverse_cons, <- app_assoc. simpl.
    apply IH; [done|]. intros seen' j x Hj. apply Hstep. by right.
Qed.

Section Margins.

Context (NCOUNTERS : nat).

Lemma scan_down_blocks_all sn k best r :
  (∀ s, (k < s ≤ NCOUNTERS)%nat →
     ∃ d, diff sn s = Some d ∧ blocked sn d best) →
  scan_down (skew_rule sn) k best = Some r →
  ∀ s, (1 ≤ s ≤ NCOUNTERS)%nat → ∃ d, diff sn s = Some d ∧ blocked sn d r.
Proof.
  revert best. induction k as [|k IH]; intros best Hinv Hscan s Hs.
  - simpl in Hscan. injection Hscan as <-. apply Hinv. lia.
  - simpl in Hscan.
    destruct (skew_rule sn (S k) best) as [best'|] eqn:Hrule; simpl in Hscan;
      [|done].
    apply (IH best'); [|done..].
    intros s' Hs'. destruct (decide (s' = S k)) as [->|Hne].
    + pose proof Hrule as (ds & db & Hds & _)%skew_rule_defined.
      exists ds. split; [done|].
      by apply (skew_rule_blocks_candidate sn (S k) best).
    + destruct (Hinv s') as (d & Hd & Hbl); [lia|].
      exists d. split; [done|].
      by apply (skew_rule_keeps_blocked sn (S k) best).
Qed.

Lemma dist_is_Some sn s :
  Snapshot_wf NCOUNTERS sn → (1 ≤ s ≤ NCOUNTERS)%nat → is_Some (dist sn s).
Proof.
  intros [_ Hw] Hs. unfold dist.
  destruct (fraction_is_Some (write_psum sn) (write_total sn) s) as [w ->];
    [lia|].
  simpl. eauto.
Qed.

Lemma balance_body_rule sn s best best' :
  balance_body sn s best = Some best' →
  ∃ fs fb, fraction (write_psum sn) (write_total sn) s = Some fs
    ∧ fraction (write_psum sn) (write_total sn) best = Some fb
    ∧ best' = if (abs (fs - 0.5) <? abs (fb - 0.5) * 0.95)%float
              then s else best.
Proof.
  unfold balance_body.
  destruct (fraction _ _ best) as [fb|]; simpl; [|done].
  destruct (fraction _ _ s) as [fs|]; simpl; [|done].
  intros Hb. exists fs, fb. split_and!; [done..|].
  destruct (_ <? _)%float; congruence.
Qed.

End Margins.

(** X11: the split selected by the skew pass is within the margin of
    every candidate: no candidate [s] in [[1, COLCOUNT]] has a diff
    exceeding [1.05] times the diff of the selected split. *)
Theorem skew_pass_within_margin NCOUNTERS (sn : Snapshot) :
  (1 ≤ NCOUNTERS)%nat → Snapshot_wf NCOUNTERS sn →
  ∃ b, skew_pass NCOUNTERS sn = Some b
    ∧ ∀ s, (1 ≤ s ≤ NCOUNTERS)%nat →
        ∃ ds db, diff sn s = Some ds ∧ diff sn (best_split b) = Some db
                 ∧ (db * 1.05 <? ds)%float = false.
Proof.
  intros Hn Hsn.
  destruct (skew_pass_scan NCOUNTERS sn Hsn Hn) as (b & Hb & _ & Hscan).
  exists b. split; [done|]. intros s Hs. unfold skew_spec in Hscan.
  assert (Hinit : ∀ s', (NCOUNTERS - 1 < s' ≤ NCOUNTERS)%nat →
            ∃ d, diff sn s' = Some d ∧ blocked sn d NCOUNTERS).
  { intros s' Hs'. assert (s' = NCOUNTERS) as -> by lia.
    destruct (diff_is_Some NCOUNTERS sn NCOUNTERS Hsn) as [d Hd]; [lia|].
    exists d. split; [done|]. by apply blocked_self. }
  destruct (scan_down_blocks_all NCOUNTERS sn (NCOUNTERS - 1) NCOUNTERS
              (best_split b) Hinit Hscan s Hs) as (ds & Hds & db & Hdb & Hlt).
  by exists ds, db.
Qed.

(** X12: the split selected by the balance pass is within the margin of
    every candidate: no candidate [s] in [[1, COLCOUNT]] has a write
    fraction whose distance from one half is below [0.95] times that of
    the selected split. *)
Theorem balance_pass_within_margin NCOUNTERS (sn : Snapshot) :
  (1 ≤ NCOUNTERS)%nat → Snapshot_wf NCOUNTERS sn →
  ∃ r, balance_pass NCOUNTERS sn NCOUNTERS = Some r
    ∧ (1 ≤ r ≤ NCOUNTERS)%nat
    ∧ ∀ s, (1 ≤ s ≤ NCOUNTERS)%nat →
        ∃ ds dr, dist sn s = Some ds ∧ dist sn r = Some dr
                 ∧ (ds <? dr * 0.95)%float = false.
Proof.
  intros Hn Hsn. pose proof Hsn as [_ Hw].
  unfold balance_pass. rewrite decide_True by done.
  set (P := λ (seen : list nat) (best : nat),
    (1 ≤ best ≤ NCOUNTERS)%nat
    ∧ ∀ s, s ∈ seen →
        ∃ ds db, dist sn s = Some ds ∧ dist sn best = Some db
                 ∧ (ds <? db * 0.95)%float = false).
  destruct (for_loop_inv_seen P (balance_body sn) (descending NCOUNTERS)
              [NCOUNTERS] NCOUNTERS) as (r & Hr & Hrange & Hall).
  - split; [lia|]. intros s ->%list_elem_of_singleton.
    destruct (dist_is_Some NCOUNTERS sn NCOUNTERS Hsn) as [d Hd]; [lia|].
    exists d, d. split_and!; [done..|].
    unfold dist in Hd.
    destruct (fraction _ _ NCOUNTERS) as [f|]; simpl in Hd; [|done].
    injection Hd as <-. apply ltb_margin_down_self.
  - intros seen s best Hs%elem_of_descending (Hbest & Hseen).
    destruct (fraction_is_Some (write_psum sn) (write_total sn) s) as [fs Hfs];
      [lia|].
    destruct (fraction_is_Some (write_psum sn) (write_total sn) best)
      as [fb Hfb]; [lia|].
    assert (Hds : dist sn s = Some (abs (fs - 0.5))%float)
      by (unfold dist; by rewrite Hfs).
    assert (Hdb : dist sn best = Some (abs (fb - 0.5))%float)
      by (unfold dist; by rewrite Hfb).
    unfold balance_body. rewrite Hfb, Hfs. simpl.
    destruct (abs (fs - 0.5) <? abs (fb - 0.5) * 0.95)%float eqn:Hlt.
    + eexists. split; [done|]. split; [lia|].
      intros s' [->|Hs']%elem_of_cons.
      * eexists _, _. split_and!; [done..|]. apply ltb_margin_down_self.
      * destruct (Hseen s' Hs') as (ds' & db' & Hds' & Hdb' & Hlt').
        assert (db' = abs (fb - 0.5))%float as -> by congruence.
        eexists _, _. split_and!; [done..|].
        by apply (ltb_margin_down_mono ds' (abs (fb - 0.5)) (fs - 0.5)).
    + eexists. split; [done|]. split; [lia|].
      intros s' [->|Hs']%elem_of_cons.
      * by eexists _, _.
      * by apply Hseen.
  - exists r. split; [done|]. split; [done|]. intros s Hs.
    apply Hall. rewrite elem_of_app, elem_of_reverse, elem_of_descending.
    destruct (decide (s = NCOUNTERS)) as [->|Hne].
    + right. by apply list_elem_of_singleton.
    + left. lia.
Qed.

(** ** Publishing a split *)

(** X13: on a bank with at least one column [RecomputeSplit] succeeds,
    and what [CurrentSplit] returns afterwards is exactly the value
    [ComputeSplitIndex] had on the state before the call; the flag
    compares that value with the stored one, the thread banks are left
    alone, and every column of the global bank reads 0 afterwards. *)
Theorem RecomputeSplit_publishes NCOUNTERS MAX_THREADS (st : Adapter) :
  (1 ≤ NCOUNTERS)%nat → Adapter_wf NCOUNTERS MAX_THREADS st →
  ∃ k changed st',
    ComputeSplitIndex NCOUNTERS st = Some k
    ∧ RecomputeSplit NCOUNTERS st = Some (changed, st')
    ∧ CurrentSplit NCOUNTERS st' = k
    ∧ (changed = true ↔ k ≠ current_split st)
    ∧ thread_counters st' = thread_counters st
    ∧ Enabled st' = Enabled st
    ∧ (∀ c, (c < NCOUNTERS)%nat →
         GetRead st' c = Some 0 ∧ GetWrite st' c = Some 0)
    ∧ Adapter_wf NCOUNTERS MAX_THREADS st'.
Proof.
  intros Hn Hwf.
  destruct (ComputeSplitIndex_range NCOUNTERS st) as (k & Hk & Hrange);
    [by eapply wf_readable | done |].
  exists k, (bool_decide (k ≠ current_split st)),
    (set_current_split k (ResetGlobal st)).
  split_and!.
  - done.
  - by apply RecomputeSplit_unfold.
  - unfold CurrentSplit. simpl. rewrite decide_False by lia. done.
  - by rewrite bool_decide_eq_true.
  - simpl. apply ResetGlobal_thread_counters.
  - simpl. apply ResetGlobal_Enabled.
  - intros c Hc.
    by apply (ResetGlobal_reads_zero NCOUNTERS MAX_THREADS st Hwf c).
  - by apply (ResetGlobal_wf NCOUNTERS MAX_THREADS st).
Qed.

(** ** Which sequences of calls run to completion *)

Lemma for_loop_head_Some {A} (body : nat → A → option A) i l a :
  is_Some (for_loop body (i :: l) a) → is_Some (body i a).
Proof. simpl. destruct (body i a); [eauto | by intros [? ?]]. Qed.

Lemma exec_Some_call_ok NCOUNTERS MAX_THREADS st c :
  (1 ≤ NCOUNTERS)%nat → length (thread_counters st) = MAX_THREADS →
  Enabled st = true → is_Some (exec NCOUNTERS st c) →
  call_ok NCOUNTERS MAX_THREADS c.
Proof.
  intros Hn Hlen He [st' Hst']. destruct c as [t i n|t i n|t| | |t]; simpl in *.
  - unfold CountRead in Hst'. case_decide; [|done]. rewrite He in Hst'.
    destruct (thread_counters st !! t) as [cs|] eqn:Hcs; [|done].
    apply lookup_lt_Some in Hcs. lia.
  - unfold CountWrite in Hst'. case_decide; [|done]. rewrite He in Hst'.
    destruct (thread_counters st !! t) as [cs|] eqn:Hcs; [|done].
    apply lookup_lt_Some in Hcs. lia.
  - unfold Commit in Hst'. rewrite He in Hst'.
    destruct (for_loop _ _ _) as [g|] eqn:Hg; [|done].
    destruct NCOUNTERS as [|n]; [lia|].
    destruct (for_loop_head_Some
                (Commit_body (thread_counters st) t) 0 (seq 1 n)
                (global_counters st)) as [g0 Hg0]; [by eexists|].
    unfold Commit_body in Hg0.
    destruct (thread_counters st !! t) as [cs|] eqn:Hcs; [|done].
    apply lookup_lt_Some in Hcs. lia.
  - done.
  - done.
  - unfold ResetThread in Hst'. rewrite He in Hst'.
    destruct (thread_counters st !! t) as [cs|] eqn:Hcs; [|done].
    apply lookup_lt_Some in Hcs. lia.
Qed.

(** X14: on an enabled adapter with at least one column, a sequence of
    calls runs to completion exactly when every call passes a column
    below [COLCOUNT] and a thread handle below [MAX_THREADS]; the state
    it ends in has arrays of the declared sizes again, slots within
    [counter_type], a stored split of at most [COLCOUNT] and the same
    flag. *)
Theorem run_completes_iff NCOUNTERS MAX_THREADS (st : Adapter) cs :
  (1 ≤ NCOUNTERS)%nat → Adapter_wf NCOUNTERS MAX_THREADS st →
  split_ok NCOUNTERS st → Enabled st = true →
  (is_Some (run NCOUNTERS st cs) ↔ Forall (call_ok NCOUNTERS MAX_THREADS) cs)
  ∧ ∀ st', run NCOUNTERS st cs = Some st' →
      Adapter_wf NCOUNTERS MAX_THREADS st' ∧ split_ok NCOUNTERS st'
      ∧ Enabled st' = true.
Proof.
  intros Hn. revert st. induction cs as [|c cs IH]; intros st Hwf Hsp He.
  - split; [split; [constructor | by eexists]|].
    simpl. intros st' [= <-]. done.
  - assert (Hc : is_Some (exec NCOUNTERS st c) →
                 call_ok NCOUNTERS MAX_THREADS c).
    { apply exec_Some_call_ok; [done | by destruct Hwf as (_ & ? & _) | done]. }
    simpl. destruct (exec NCOUNTERS st c) as [st1|] eqn:Hst1; simpl.
    + assert (Hok : call_ok NCOUNTERS MAX_THREADS c) by (apply Hc; eauto).
      destruct (exec_wf NCOUNTERS MAX_THREADS st c Hn Hwf Hsp Hok)
        as (st1' & Hst1' & Hwf1 & Hsp1 & He1).
      assert (st1' = st1) as -> by congruence.
      rewrite He in He1.
      destruct (IH st1 Hwf1 Hsp1 He1) as [Hiff Hend].
      split; [|done]. rewrite Forall_cons. rewrite Hiff. tauto.
    + split; [|done]. split; [by intros [? ?]|].
      intros [Hok _]%Forall_cons.
      destruct (exec_wf NCOUNTERS MAX_THREADS st c Hn Hwf Hsp Hok)
        as (st1' & Hst1' & _). congruence.
Qed.

(** ** Leaving the unsplit layout *)

Lemma ltb_margin_chain (a x d : float) :
  (a <? abs x)%float = true → (abs x * 1.05 <? d)%float = true →
  (a <? d)%float = true.
Proof.
  intros Hax Hxd. pose proof (ltb_margin_self x) as Hself.
  rewrite ltb_spec in *.
  assert (Prim2SF (abs x * 1.05) ≠ S754_nan) as Hnan.
  { intros Hn. rewrite Hn in Hxd. done. }
  pose proof (SFltb_lt_le _ _ _ Hnan Hax Hself) as H1.
  exact (SFltb_trans _ _ _ H1 Hxd).
Qed.

Lemma ltb_margin_down_chain (c b e : float) :
  (c <? abs b * 0.95)%float = true → (abs b <? e)%float = true →
  (c <? e)%float = true.
Proof.
  intros Hcb Hbe. pose proof (ltb_margin_down_self b) as Hself.
  rewrite ltb_spec in *.
  assert (Prim2SF (abs b) ≠ S754_nan) as Hnan.
  { intros Hn. rewrite Hn in Hbe. done. }
  pose proof (SFltb_lt_le _ _ _ Hnan Hcb Hself) as H1.
  exact (SFltb_trans _ _ _ H1 Hbe).
Qed.

Section Hysteresis.

Context (NCOUNTERS : nat).

Lemma scan_down_beats_skew sn k best r :
  beats_skew NCOUNTERS sn best → scan_down (skew_rule sn) k best = Some r →
  beats_skew NCOUNTERS sn r.
Proof.
  revert best. induction k as [|k IH]; intros best Hinv; simpl.
  - by intros [= <-].
  - destruct (skew_rule sn (S k) best) as [best'|] eqn:Hrule; simpl; [|done].
    apply IH.
    apply skew_rule_defined in Hrule as (ds & db & Hds & Hdb & ->).
    destruct (db * 1.05 <? ds)%float eqn:Hlt; [|done].
    right. destruct Hinv as [->|(dN & db' & HdN & Hdb' & Hbeat)].
    + by exists db, ds.
    + assert (db' = db) as -> by congruence.
      exists dN, ds. split_and!; [done..|].
      destruct (diff_is_abs sn best db Hdb) as [x ->].
      by apply (ltb_margin_chain _ x).
Qed.

Lemma balance_pass_beats_balance sn r :
  Snapshot_wf NCOUNTERS sn → (1 ≤ NCOUNTERS)%nat →
  balance_pass NCOUNTERS sn NCOUNTERS = Some r →
  beats_balance NCOUNTERS sn r.
Proof.
  intros Hsn Hn. pose proof Hsn as [_ Hw].
  unfold balance_pass. rewrite decide_True by done.
  destruct (for_loop_inv
              (λ best, (1 ≤ best ≤ NCOUNTERS)%nat
                       ∧ beats_balance NCOUNTERS sn best)
              (balance_body sn) (descending NCOUNTERS) NCOUNTERS)
    as (y & Hy & _ & Hbeat).
  - split; [lia | by left].
  - intros s best Hs%elem_of_descending (Hbest & Hinv).
    destruct (fraction_is_Some (write_psum sn) (write_total sn) s) as [fs Hfs];
      [lia|].
    destruct (fraction_is_Some (write_psum sn) (write_total sn) best)
      as [fb Hfb]; [lia|].
    unfold balance_body. rewrite Hfb, Hfs. simpl.
    destruct (abs (fs - 0.5) <? abs (fb - 0.5) * 0.95)%float eqn:Hlt;
      (eexists; split; [done|]); [|done].
    split; [lia|]. right.
    assert (Hds : dist sn s = Some (abs (fs - 0.5))%float)
      by (unfold dist; by rewrite Hfs).
    assert (Hdb : dist sn best = Some (abs (fb - 0.5))%float)
      by (unfold dist; by rewrite Hfb).
    destruct Hinv as [->|(dN & db' & HdN & Hdb' & Hbeat)].
    + by eexists _, _.
    + assert (db' = abs (fb - 0.5))%float as -> by congruence.
      exists dN, (abs (fs - 0.5))%float. split_and!; [done..|].
      by apply (ltb_margin_down_chain _ (fb - 0.5)).
  - intros Hr. by assert (y = r) as -> by congruence.
Qed.

End Hysteresis.

(** X15: [ComputeSplitIndex()] leaves the unsplit layout only beyond a
    margin: a result [r] other than [COLCOUNT] has, on the snapshot
    taken, either a diff above [1.05] times the diff of [COLCOUNT], or a
    distance of the write fraction from one half below [0.95] times that
    of [COLCOUNT]. *)
Theorem ComputeSplitIndex_leaves_COLCOUNT_beyond_margin
    NCOUNTERS MAX_THREADS (st : Adapter) r :
  (1 ≤ NCOUNTERS)%nat → Adapter_wf NCOUNTERS MAX_THREADS st →
  ComputeSplitIndex NCOUNTERS st = Some r → r ≠ NCOUNTERS →
  ∃ sn, take_snapshot NCOUNTERS st = Some sn
    ∧ ((∃ dN dr, diff sn NCOUNTERS = Some dN ∧ diff sn r = Some dr
                 ∧ (dN * 1.05 <? dr)%float = true)
       ∨ (∃ dN dr, dist sn NCOUNTERS = Some dN ∧ dist sn r = Some dr
                   ∧ (dr <? dN * 0.95)%float = true)).
Proof.
  intros Hn Hwf Hr Hne. unfold ComputeSplitIndex in Hr.
  destruct (take_snapshot_wf NCOUNTERS st) as (sn & Hsn & Hsnwf);
    [by eapply wf_readable|].
  rewrite Hsn in Hr. simpl in Hr. exists sn. split; [done|].
  destruct (skew_pass_scan NCOUNTERS sn Hsnwf Hn) as (b & Hb & _ & Hscan).
  rewrite Hb in Hr. simpl in Hr.
  destruct (decide (best_split b = NCOUNTERS)) as [Hbn|Hbn].
  - rewrite Hbn in Hr. right.
    by destruct (balance_pass_beats_balance NCOUNTERS sn r Hsnwf Hn Hr).
  - unfold balance_pass in Hr. rewrite decide_False in Hr by done.
    injection Hr as <-. left.
    by destruct (scan_down_beats_skew NCOUNTERS sn _ _ _ (or_introl eq_refl)
                   Hscan).
Qed.

(** ** An index type without columns *)

(** X16: [ComputeSplitIndex()] and [RecomputeSplit()] need at least one
    column: with [COLCOUNT = 0] the first thing read is
    [read_psum[SIZE_MAX]], outside the array, and with [COLCOUNT ≥ 1]
    both calls complete on every bank. *)
Theorem ComputeSplitIndex_defined_iff NCOUNTERS MAX_THREADS (st : Adapter) :
  Adapter_wf NCOUNTERS MAX_THREADS st →
  (is_Some (ComputeSplitIndex NCOUNTERS st) ↔ (1 ≤ NCOUNTERS)%nat)
  ∧ (is_Some (RecomputeSplit NCOUNTERS st) ↔ (1 ≤ NCOUNTERS)%nat).
Proof.
  intros Hwf.
  assert (Hzero : ComputeSplitIndex 0 st = None) by reflexivity.
  assert (Hpos : (1 ≤ NCOUNTERS)%nat →
                 ∃ k, ComputeSplitIndex NCOUNTERS st = Some k).
  { intros Hn.
    destruct (ComputeSplitIndex_range NCOUNTERS st) as (k & Hk & _);
      [by eapply wf_readable | done | by exists k]. }
  split; split.
  - intros [k Hk]. destruct NCOUNTERS; [congruence | lia].
  - intros Hn. destruct (Hpos Hn) as [k Hk]. by exists k.
  - intros [p Hp]. destruct NCOUNTERS; [|lia].
    unfold RecomputeSplit in Hp. rewrite Hzero in Hp. done.
  - intros Hn. destruct (Hpos Hn) as [k Hk].
    rewrite (RecomputeSplit_unfold NCOUNTERS st k Hk). by eexists.
Qed.

(** ** Instances *)

Lemma Count_touches_one_slot_witness :
  ∃ sr sw x y,
    CountRead 4 two_workers 1 2 5 = Some sr
    ∧ CountWrite 4 two_workers 1 2 5 = Some sw
    ∧ TGetRead two_workers 1 2 = Some x ∧ TGetWrite two_workers 1 2 = Some y
    ∧ TGetRead sr 1 2 = Some (wrap (x + 5))
    ∧ TGetWrite sw 1 2 = Some (wrap (y + 5))
    ∧ (∀ t' c, t' ≠ 1%nat ∨ c ≠ 2%nat →
         TGetRead sr t' c = TGetRead two_workers t' c
         ∧ TGetWrite sw t' c = TGetWrite two_workers t' c)
    ∧ (∀ t' c, TGetWrite sr t' c = TGetWrite two_workers t' c
               ∧ TGetRead sw t' c = TGetRead two_workers t' c)
    ∧ global_counters sr = global_counters two_workers
    ∧ global_counters sw = global_counters two_workers
    ∧ current_split sr = current_split two_workers
    ∧ current_split sw = current_split two_workers.
Proof. apply (Count_touches_one_slot 4 2 two_workers 1 2 5); solve_wf. Defined.

Lemma Count_defined_iff_witness :
  (is_Some (CountRead 4 two_workers 1 2 5)
   ↔ (2 < 4)%nat ∧ (Enabled two_workers = true → (1 < 2)%nat))
  ∧ (is_Some (CountWrite 4 two_workers 1 2 5)
     ↔ (2 < 4)%nat ∧ (Enabled two_workers = true → (1 < 2)%nat)).
Proof. apply (Count_defined_iff 4 2 two_workers 1 2 5); solve_wf. Defined.

Lemma ResetThread_zeroes_own_bank_witness :
  ∃ st', ResetThread two_workers 1 = Some st'
    ∧ Adapter_wf 4 2 st'
    ∧ (∀ c, (c < 4)%nat →
         TGetRead st' 1 c = Some 0 ∧ TGetWrite st' 1 c = Some 0)
    ∧ (∀ t' c, t' ≠ 1%nat →
         TGetRead st' t' c = TGetRead two_workers t' c
         ∧ TGetWrite st' t' c = TGetWrite two_workers t' c)
    ∧ global_counters st' = global_counters two_workers
    ∧ current_split st' = current_split two_workers.
Proof. apply (ResetThread_zeroes_own_bank 4 2 two_workers 1); solve_wf. Defined.

Lemma Commit_ResetThread_Commit_counts_once_witness :
  ∃ st1 st3,
    Commit 4 two_workers 0 = Some st1
    ∧ run 4 two_workers [CallCommit 0; CallResetThread 0; CallCommit 0]
      = Some st3
    ∧ global_counters st3 = global_counters st1
    ∧ ∀ c, GetRead st3 c = GetRead st1 c ∧ GetWrite st3 c = GetWrite st1 c.
Proof.
  apply (Commit_ResetThread_Commit_counts_once 4 2 two_workers 0); solve_wf.
Defined.

Lemma ResetGlobal_opens_window_witness :
  global_counters (ResetGlobal skewed_committed) = zero_set 4
  ∧ (∀ c, (c < 4)%nat →
       GetRead (ResetGlobal skewed_committed) c = Some 0
       ∧ GetWrite (ResetGlobal skewed_committed) c = Some 0)
  ∧ thread_counters (ResetGlobal skewed_committed)
    = thread_counters skewed_committed
  ∧ current_split (ResetGlobal skewed_committed)
    = current_split skewed_committed
  ∧ ResetGlobal (ResetGlobal skewed_committed) = ResetGlobal skewed_committed
  ∧ ∃ st', Commit 4 (ResetGlobal skewed_committed) 0 = Some st'
      ∧ ∀ c, (c < 4)%nat →
          GetRead st' c = TGetRead skewed_committed 0 c
          ∧ GetWrite st' c = TGetWrite skewed_committed 0 c.
Proof. apply (ResetGlobal_opens_window 4 1 skewed_committed 0); solve_wf. Defined.

Lemma Commit_order_irrelevant_witness :
  ∃ st', run 4 two_workers [CallCommit 0; CallCommit 1] = Some st'
         ∧ run 4 two_workers [CallCommit 1; CallCommit 0] = Some st'.
Proof. apply (Commit_order_irrelevant 4 2 two_workers 0 1); solve_wf. Defined.

Lemma local_calls_are_invisible_witness :
  ∃ st', run 4 two_workers local_calls = Some st'
    ∧ global_counters st' = global_counters two_workers
    ∧ current_split st' = current_split two_workers
    ∧ (∀ c, GetRead st' c = GetRead two_workers c
            ∧ GetWrite st' c = GetWrite two_workers c)
    ∧ ComputeSplitIndex 4 st' = ComputeSplitIndex 4 two_workers.
Proof.
  eexists. split; [reflexivity|].
  apply (local_calls_are_invisible 4 two_workers local_calls).
  - repeat constructor.
  - reflexivity.
Defined.

Lemma take_snapshot_prefix_sums_witness :
  ∃ sn, take_snapshot 4 skewed_bank = Some sn
    ∧ Snapshot_wf 4 sn
    ∧ (∀ i, (i < 4)%nat →
         read_psum sn !! i
         = Some (wrap (sumZ (take (S i)
                               (read_counters (global_counters skewed_bank)))))
         ∧ write_psum sn !! i
           = Some (wrap (sumZ (take (S i)
                                 (write_counters
                                    (global_counters skewed_bank))))))
    ∧ read_total sn = wrap (sumZ (read_counters (global_counters skewed_bank)))
    ∧ write_total sn
      = wrap (sumZ (write_counters (global_counters skewed_bank)))
    ∧ ((1 ≤ 4)%nat →
       read_psum sn !! (4 - 1)%nat = Some (read_total sn)
       ∧ write_psum sn !! (4 - 1)%nat = Some (write_total sn)).
Proof. apply (take_snapshot_prefix_sums 4 1 skewed_bank); solve_wf. Defined.

Lemma ComputeSplitIndex_no_writes_witness :
  ComputeSplitIndex 4 read_only_bank = Some 4%nat.
Proof.
  apply (ComputeSplitIndex_no_writes 4 1 read_only_bank); solve_wf.
  intros c Hc. do 4 (destruct c as [|c]; [reflexivity|]). lia.
Defined.

Lemma ComputeSplitIndex_no_reads_witness :
  ∃ sn, take_snapshot 4 write_only_bank = Some sn
    ∧ best_split <$> skew_pass 4 sn = Some 4%nat
    ∧ ComputeSplitIndex 4 write_only_bank = balance_pass 4 sn 4.
Proof.
  apply (ComputeSplitIndex_no_reads 4 1 write_only_bank); solve_wf.
  intros c Hc. do 4 (destruct c as [|c]; [reflexivity|]). lia.
Defined.

Lemma skew_pass_within_margin_witness :
  ∃ b, skew_pass 4 skewed_snapshot = Some b
    ∧ ∀ s, (1 ≤ s ≤ 4)%nat →
        ∃ ds db, diff skewed_snapshot s = Some ds
                 ∧ diff skewed_snapshot (best_split b) = Some db
                 ∧ (db * 1.05 <? ds)%float = false.
Proof. apply (skew_pass_within_margin 4 skewed_snapshot); solve_wf. Defined.

Lemma balance_pass_within_margin_witness :
  ∃ r, balance_pass 4 skewed_snapshot 4 = Some r
    ∧ (1 ≤ r ≤ 4)%nat
    ∧ ∀ s, (1 ≤ s ≤ 4)%nat →
        ∃ ds dr, dist skewed_snapshot s = Some ds
                 ∧ dist skewed_snapshot r = Some dr
                 ∧ (ds <? dr * 0.95)%float = false.
Proof. apply (balance_pass_within_margin 4 skewed_snapshot); solve_wf. Defined.

Lemma RecomputeSplit_publishes_witness :
  ∃ k changed st',
    ComputeSplitIndex 4 skewed_bank = Some k
    ∧ RecomputeSplit 4 skewed_bank = Some (changed, st')
    ∧ CurrentSplit 4 st' = k
    ∧ (changed = true ↔ k ≠ current_split skewed_bank)
    ∧ thread_counters st' = thread_counters skewed_bank
    ∧ Enabled st' = Enabled skewed_bank
    ∧ (∀ c, (c < 4)%nat →
         GetRead st' c = Some 0 ∧ GetWrite st' c = Some 0)
    ∧ Adapter_wf 4 1 st'.
Proof. apply (RecomputeSplit_publishes 4 1 skewed_bank); solve_wf. Defined.

Lemma run_completes_iff_witness :
  (is_Some (run 4 (INITIALIZE_ADAPTER 4 1 true) skewed_calls)
   ↔ Forall (call_ok 4 1) skewed_calls)
  ∧ ∀ st', run 4 (INITIALIZE_ADAPTER 4 1 true) skewed_calls = Some st' →
      Adapter_wf 4 1 st' ∧ split_ok 4 st' ∧ Enabled st' = true.
Proof.
  apply (run_completes_iff 4 1 (INITIALIZE_ADAPTER 4 1 true) skewed_calls);
    [lia | solve_wf | unfold split_ok; simpl; lia | reflexivity].
Defined.

Lemma ComputeSplitIndex_leaves_COLCOUNT_beyond_margin_witness :
  ∃ sn, take_snapshot 4 skewed_bank = Some sn
    ∧ ((∃ dN dr, diff sn 4 = Some dN ∧ diff sn 2 = Some dr
                 ∧ (dN * 1.05 <? dr)%float = true)
       ∨ (∃ dN dr, dist sn 4 = Some dN ∧ dist sn 2 = Some dr
                   ∧ (dr <? dN * 0.95)%float = true)).
Proof.
  apply (ComputeSplitIndex_leaves_COLCOUNT_beyond_margin 4 1 skewed_bank 2);
    [lia | solve_wf | reflexivity | lia].
Defined.

Lemma ComputeSplitIndex_defined_iff_witness :
  (is_Some (ComputeSplitIndex 4 skewed_bank) ↔ (1 ≤ 4)%nat)
  ∧ (is_Some (RecomputeSplit 4 skewed_bank) ↔ (1 ≤ 4)%nat).
Proof. apply (ComputeSplitIndex_defined_iff 4 1 skewed_bank); solve_wf. Defined.
